(** * Moving-average forecasting demo: a shallow embedding and its properties

    The development follows [src/moving_average_demo.py] and
    [streamlit_app.py].  Python exceptions are the [Raise] branch of a
    result type, Python [int]s are [Z], lists are [list], dictionaries are
    stdpp's [gmap], and the series values live in an abstract number type
    with two executable instances: binary64 floats (what Python's [float]
    is) and exact rationals (the reals of the specification). *)

From Stdlib Require Import ZArith QArith Floats Lia ZifyBool Ascii String.
From stdpp Require Import gmap strings list sorting.

(** ** Exceptions and the result monad *)

Inductive exn : Set :=
  | ValueError
  | ZeroDivisionError
  | FileNotFoundError
  | IndexError
  | KeyError
  | AttributeError
  | OverflowError.

Inductive result (A : Type) : Type :=
  | Ok (a : A)
  | Raise (e : exn).
Arguments Ok {A} a.
Arguments Raise {A} e.

#[global] Instance result_ret : MRet result := λ A a, Ok a.
#[global] Instance result_bind : MBind result := λ A B f r,
  match r with
  | Ok a => f a
  | Raise e => Raise e
  end.

(** [for x in xs: body], threading the loop state and stopping at the first
    exception. *)
Fixpoint for_each {S A : Type} (xs : list A) (body : S → A → result S) (s : S)
    : result S :=
  match xs with
  | [] => Ok s
  | x :: xs' => s' ← body s x; for_each xs' body s'
  end.

(** ** Python sequence indexing and slicing *)

Local Open Scope Z_scope.

(** How a slice bound is brought into [0 .. len]. *)
Definition clamp_index (len i : Z) : Z :=
  if i <? 0 then Z.max 0 (i + len) else Z.min i len.

(** [l[start:stop]]; [None] is an omitted bound. *)
Definition slice {A : Type} (l : list A) (start stop : option Z) : list A :=
  let len := Z.of_nat (length l) in
  let lo := from_option (clamp_index len) 0 start in
  let hi := from_option (clamp_index len) len stop in
  take (Z.to_nat (hi - lo)) (drop (Z.to_nat lo) l).

(** [l[i]], negative indices counting from the end. *)
Definition index {A : Type} (l : list A) (i : Z) : result A :=
  let j := if i <? 0 then i + Z.of_nat (length l) else i in
  if j <? 0 then Raise IndexError
  else match l !! Z.to_nat j with
       | Some x => Ok x
       | None => Raise IndexError
       end.

(** ** Numbers *)

(** The arithmetic the program performs on series values.  [num_div] is the
    quotient for a divisor that is not zero; the zero test that raises
    [ZeroDivisionError] is in [truediv] and [truediv_int] below.
    [num_round x] is [int(round(x))]. *)
Class Number (T : Type) := {
  num_of_Z : Z → T;
  num_add : T → T → T;
  num_sub : T → T → T;
  num_mul : T → T → T;
  num_div : T → T → T;
  num_eqb : T → T → bool;
  num_ltb : T → T → bool;
  num_round : T → result Z;
}.

(** Nearest integer to [n / d] for [0 < d], ties to the even neighbour. *)
Definition round_half_even (n d : Z) : Z :=
  let q := n / d in
  let r := n mod d in
  match 2 * r ?= d with
  | Lt => q
  | Gt => q + 1
  | Eq => if Z.even q then q else q + 1
  end.

Module FloatNum.
Definition of_Z (z : Z) : float :=
  SF2Prim (binary_normalize prec emax z 0 false).

Definition round (x : float) : result Z :=
  match Prim2SF x with
  | S754_zero _ => Ok 0
  | S754_infinity _ => Raise OverflowError
  | S754_nan => Raise ValueError
  | S754_finite s m e =>
      let n := if s then Z.neg m else Z.pos m in
      Ok (if 0 <=? e then n * 2 ^ e else round_half_even n (2 ^ (- e)))
  end.

#[global] Instance number : Number float := {|
  num_of_Z := of_Z;
  num_add := PrimFloat.add;
  num_sub := PrimFloat.sub;
  num_mul := PrimFloat.mul;
  num_div := PrimFloat.div;
  num_eqb := PrimFloat.eqb;
  num_ltb := PrimFloat.ltb;
  num_round := round;
|}.
End FloatNum.

Module RatNum.
(** Exact rationals kept in lowest terms, so that equal values are equal
    terms. *)
#[global] Instance number : Number Q := {|
  num_of_Z := inject_Z;
  num_add := λ a b, Qred (a + b);
  num_sub := λ a b, Qred (a - b);
  num_mul := λ a b, Qred (a * b);
  num_div := λ a b, Qred (a / b);
  num_eqb := Qeq_bool;
  num_ltb := λ a b, negb (Qle_bool b a);
  num_round := λ a, Ok (round_half_even (Qnum a) (Z.pos (Qden a)));
|}.
End RatNum.

Section Arithmetic.
Context {T : Type} `{Number T}.

(** The builtin [sum]: a left fold that starts from the integer 0.  (Recent
    CPython versions compensate the rounding error of a sum of floats; the
    properties below hold for any way of rounding, and the worked examples
    involve no rounding.) *)
Definition py_sum (xs : list T) : T := fold_left num_add xs (num_of_Z 0).

(** [x / y] for two series values. *)
Definition truediv (x y : T) : result T :=
  if num_eqb y (num_of_Z 0) then Raise ZeroDivisionError
  else Ok (num_div x y).

(** [x / n] for a Python [int] [n] (a window size or a length). *)
Definition truediv_int (x : T) (n : Z) : result T :=
  if n =? 0 then Raise ZeroDivisionError
  else Ok (num_div x (num_of_Z n)).

(** The arithmetic mean the specification speaks of. *)
Definition mean (xs : list T) : T :=
  num_div (py_sum xs) (num_of_Z (Z.of_nat (length xs))).
End Arithmetic.

(** ** The smoother and the forecaster *)

Section Core.
Context {T : Type} `{Number T}.

Definition moving_average_body (values : list T) (window : Z)
    (results : list (option T)) (idx : nat) : result (list (option T)) :=
  let start := Z.max 0 (Z.of_nat idx - window + 1) in
  let window_slice := slice values (Some start) (Some (Z.of_nat idx + 1)) in
  if Z.of_nat (length window_slice) <? window then
    Ok (results ++ [None])
  else
    m ← truediv_int (py_sum window_slice) window;
    Ok (results ++ [Some m]).

Definition moving_average (values : list T) (window : Z)
    : result (list (option T)) :=
  if window <=? 0 then Raise ValueError
  else for_each (seq 0 (length values)) (moving_average_body values window) [].

(** One turn of the forecasting loop on the pair (history, forecasts). *)
Definition forecast_body (window : Z) (st : list T * list T) (_ : nat)
    : result (list T * list T) :=
  let '(history, forecasts) := st in
  let window_slice := slice history (Some (- window)) None in
  m ← truediv_int (py_sum window_slice) (Z.of_nat (length window_slice));
  let forecasts := forecasts ++ [m] in
  x ← index forecasts (-1);
  Ok (history ++ [x], forecasts).

Definition forecast (values : list T) (window horizon : Z) : result (list T) :=
  if horizon <=? 0 then Ok []
  else
    st ← for_each (seq 0 (Z.to_nat horizon)) (forecast_body window) (values, []);
    Ok (snd st).
End Core.

(** ** Calendar dates and the date stepper *)

(** [datetime.date]: a triple of integers; [new_date] below is its checking
    constructor. *)
Record dt_date : Set := mk_date { year : Z; month : Z; day : Z }.

#[global] Instance dt_date_eq_dec : EqDecision dt_date.
Proof. solve_decision. Defined.

(** [calendar.isleap]. *)
Definition isleap (y : Z) : bool :=
  (y mod 4 =? 0) && (negb (y mod 100 =? 0) || (y mod 400 =? 0)).

(** [calendar.mdays], indexed by month number. *)
Definition mdays : list Z := [0; 31; 28; 31; 30; 31; 30; 31; 31; 30; 31; 30; 31].

Definition days_in_month (y m : Z) : Z :=
  nth (Z.to_nat m) mdays 0 + (if (m =? 2) && isleap y then 1 else 0).

(** [calendar.monthrange(year, month)[1]]: the number of days of the month.
    The weekday that [monthrange] also returns is computed on a year folded
    into the supported range and raises nothing; only the month is checked. *)
Definition monthrange_ndays (y m : Z) : result Z :=
  if (1 <=? m) && (m <=? 12) then Ok (days_in_month y m) else Raise ValueError.

Definition MINYEAR : Z := 1.
Definition MAXYEAR : Z := 9999.

Definition fits_c_int (z : Z) : bool := (- 2 ^ 31 <=? z) && (z <? 2 ^ 31).

(** [datetime.date(y, m, d)]. *)
Definition new_date (y m d : Z) : result dt_date :=
  if negb (fits_c_int y && fits_c_int m && fits_c_int d) then Raise OverflowError
  else if negb ((MINYEAR <=? y) && (y <=? MAXYEAR)) then Raise ValueError
  else if negb ((1 <=? m) && (m <=? 12)) then Raise ValueError
  else if negb ((1 <=? d) && (d <=? days_in_month y m)) then Raise ValueError
  else Ok (mk_date y m d).

(** The values of [datetime.date] that exist. *)
Definition valid_date (d : dt_date) : Prop :=
  MINYEAR <= year d <= MAXYEAR ∧ 1 <= month d <= 12 ∧
  1 <= day d <= days_in_month (year d) (month d).

Definition add_months (date : dt_date) (months : Z) : result dt_date :=
  let y := year date + (month date - 1 + months) / 12 in
  let m := (month date - 1 + months) mod 12 + 1 in
  ndays ← monthrange_ndays y m;
  let d := Z.min (day date) ndays in
  new_date y m d.

(** Date comparison, as [datetime.date] orders its values. *)
Definition date_ltb (a b : dt_date) : bool :=
  (year a <? year b)
  || ((year a =? year b)
      && ((month a <? month b) || ((month a =? month b) && (day a <? day b)))).

Definition date_le (a b : dt_date) : Prop := date_ltb b a = false.

(** ** The ASCII sparkline *)

Definition SPARK_CHARS : string := " .:-=+*#%@".

(** [s * n] on a string. *)
Fixpoint str_mul (s : string) (n : nat) : string :=
  match n with
  | O => ""
  | S n' => s +:+ str_mul s n'
  end.

Section Sparkline.
Context {T : Type} `{Number T}.

(** The builtins [min] and [max]: the first element is kept until a
    strictly smaller (larger) one is met. *)
Definition py_min (values : list T) : result T :=
  match values with
  | [] => Raise ValueError
  | x :: xs =>
      Ok (fold_left (λ cur item, if num_ltb item cur then item else cur) xs x)
  end.

Definition py_max (values : list T) : result T :=
  match values with
  | [] => Raise ValueError
  | x :: xs =>
      Ok (fold_left (λ cur item, if num_ltb cur item then item else cur) xs x)
  end.

Definition sparkline_body (v_min span : T) (scale : Z)
    (chars : list ascii) (value : T) : result (list ascii) :=
  q ← truediv (num_sub value v_min) span;
  normalized ← num_round (num_mul q (num_of_Z scale));
  c ← index (list_ascii_of_string SPARK_CHARS) normalized;
  Ok (chars ++ [c]).

Definition sparkline (values : list T) : result string :=
  match values with
  | [] => Ok ""
  | _ =>
      v_min ← py_min values;
      v_max ← py_max values;
      if num_eqb v_min v_max then Ok (str_mul "=" (length values))
      else
        let span := num_sub v_max v_min in
        let scale := Z.of_nat (String.length SPARK_CHARS) - 1 in
        chars ← for_each values (sparkline_body v_min span scale) [];
        Ok (string_of_list_ascii chars)
  end.
End Sparkline.

(** ** Series points and the CSV readers *)

Record SeriesPoint (T : Type) : Type := mk_point { date : dt_date; value : T }.
Arguments mk_point {T} date value.
Arguments date {T} s.
Arguments value {T} s.

(** [list.sort(key=...)] is stable and compares keys with [<].  Inserting
    from the right, each element in front of the first one whose key is not
    smaller, computes that list. *)
Fixpoint insert_by_key {A K : Type} (ltb : K → K → bool) (key : A → K)
    (x : A) (l : list A) : list A :=
  match l with
  | [] => [x]
  | y :: l' =>
      if ltb (key y) (key x) then y :: insert_by_key ltb key x l'
      else x :: y :: l'
  end.

Definition sort_by_key {A K : Type} (ltb : K → K → bool) (key : A → K)
    (l : list A) : list A :=
  foldr (insert_by_key ltb key) [] l.

(** A row as [csv.DictReader] yields it: a dictionary from column names to
    fields, where a field missing from a short line is [None]. *)
Abbreviation row := (gmap string (option string)).

(** The file system, as far as the reader sees it: the paths that exist and
    the rows [csv.DictReader] yields for each. *)
Abbreviation filesystem := (gmap string (list row)).

(** [row.get(k)]. *)
Definition row_get (r : row) (k : string) : option string := r !! k ≫= id.

(** [row[k]] followed by a string method call. *)
Definition row_str (r : row) (k : string) : result string :=
  match r !! k with
  | None => Raise KeyError
  | Some None => Raise AttributeError
  | Some (Some s) => Ok s
  end.

(** Truth value of [row.get(k)]: [None] and the empty string are false. *)
Definition truthy (o : option string) : bool :=
  match o with
  | Some s => negb (String.eqb s "")
  | None => false
  end.

(** A library parser that fails raises [ValueError]. *)
Definition or_value_error {A : Type} (o : option A) : result A :=
  match o with
  | Some a => Ok a
  | None => Raise ValueError
  end.

(** What [st.file_uploader] or a caller hands to [parse_uploaded_csv]: an
    object with [getvalue], a bytes-like object, or anything else.  The
    payload is given by the rows that decoding and [csv.DictReader] yield. *)
Inductive upload : Type :=
  | UploadedFile (content : list row)
  | RawBytes (content : list row)
  | Unsupported.

Section Readers.
(** The library functions the readers call: [str.strip],
    [datetime.date.fromisoformat] and [float]; a parser answers [None]
    where the library raises [ValueError]. *)
Context {T : Type}.
Variable strip : string → string.
Variable fromisoformat : string → option dt_date.
Variable parse_float : string → option T.

Definition skipped (r : row) : bool :=
  negb (truthy (row_get r "date")) || negb (truthy (row_get r "value")).

Definition read_row (points : list (SeriesPoint T)) (r : row)
    : result (list (SeriesPoint T)) :=
  if skipped r then Ok points
  else
    ds ← row_str r "date";
    d ← or_value_error (fromisoformat (strip ds));
    vs ← row_str r "value";
    v ← or_value_error (parse_float (strip vs));
    Ok (points ++ [mk_point d v]).

Definition load_series_from_csv (fs : filesystem) (path : string)
    : result (list (SeriesPoint T)) :=
  match fs !! path with
  | None => Raise FileNotFoundError
  | Some rows =>
      points ← for_each rows read_row [];
      let points := sort_by_key date_ltb date points in
      match points with
      | [] => Raise ValueError
      | _ => Ok points
      end
  end.

Definition parse_uploaded_csv (buffer : upload) : result (list (SeriesPoint T)) :=
  raw ← match buffer with
        | UploadedFile content => Ok content
        | RawBytes content => Ok content
        | Unsupported => Raise ValueError
        end;
  points ← for_each raw read_row [];
  let points := sort_by_key date_ltb date points in
  match points with
  | [] => Raise ValueError
  | _ => Ok points
  end.
End Readers.

(** Executable stand-ins for the three library functions on plain ASCII
    input: whitespace stripping, dates written YYYY-MM-DD and unsigned or
    signed decimal literals read as exact rationals. *)
Module Lib.
Definition is_space (c : ascii) : bool :=
  let n := N_of_ascii c in
  ((9 <=? n) && (n <=? 13) || (28 <=? n) && (n <=? 32))%N.

Fixpoint lstrip (s : list ascii) : list ascii :=
  match s with
  | c :: s' => if is_space c then lstrip s' else s
  | [] => []
  end.

Definition strip (s : string) : string :=
  string_of_list_ascii
    (rev (lstrip (rev (lstrip (list_ascii_of_string s))))).

Definition digit (c : ascii) : option Z :=
  let n := N_of_ascii c in
  if ((48 <=? n) && (n <=? 57))%N then Some (Z.of_N n - 48) else None.

(** The number a non-empty run of digits denotes. *)
Definition digits (cs : list ascii) : option Z :=
  match cs with
  | [] => None
  | _ => foldl (λ acc c, n ← acc; d ← digit c; Some (10 * n + d)) (Some 0) cs
  end.

Definition fromisoformat (s : string) : option dt_date :=
  match list_ascii_of_string s with
  | [y1; y2; y3; y4; "-"%char; m1; m2; "-"%char; d1; d2] =>
      y ← digits [y1; y2; y3; y4];
      m ← digits [m1; m2];
      d ← digits [d1; d2];
      match new_date y m d with
      | Ok dd => Some dd
      | Raise _ => None
      end
  | _ => None
  end.

Fixpoint split_at_dot (cs : list ascii) : list ascii * option (list ascii) :=
  match cs with
  | [] => ([], None)
  | c :: cs' =>
      if Ascii.eqb c "." then ([], Some cs')
      else let '(a, b) := split_at_dot cs' in (c :: a, b)
  end.

Definition unsigned_decimal (cs : list ascii) : option Q :=
  match split_at_dot cs with
  | (ip, None) => n ← digits ip; Some (inject_Z n)
  | (ip, Some fp) =>
      n ← digits ip;
      f ← digits fp;
      Some (Qred (Qmake (n * 10 ^ Z.of_nat (length fp) + f)
                        (Z.to_pos (10 ^ Z.of_nat (length fp)))))
  end.

Definition parse_float (s : string) : option Q :=
  match list_ascii_of_string s with
  | "-"%char :: cs => q ← unsigned_decimal cs; Some (Qred (- q))
  | "+"%char :: cs => unsigned_decimal cs
  | cs => unsigned_decimal cs
  end.

Definition load (fs : filesystem) (path : string) : result (list (SeriesPoint Q)) :=
  load_series_from_csv strip fromisoformat parse_float fs path.

Definition upload_rows (buffer : upload) : result (list (SeriesPoint Q)) :=
  parse_uploaded_csv strip fromisoformat parse_float buffer.

(** The row of a two-column file. *)
Definition row_of (d v : string) : row :=
  <["date" := Some d]> (<["value" := Some v]> ∅).
End Lib.

(** ** Vocabulary of the specification *)

(** The elements at positions [lo .. hi], both included. *)
Definition elements_between {A : Type} (l : list A) (lo hi : nat) : list A :=
  take (S hi - lo) (drop lo l).

(** The last [n] elements, or all of them when there are fewer. *)
Definition last_n {A : Type} (n : nat) (l : list A) : list A :=
  drop (length l - n) l.

(** The value the specification gives to position [i] of the smoothed
    sequence. *)
Definition smoothed_at {T : Type} `{Number T} (values : list T) (window : Z)
    (i : nat) : option T :=
  let elems :=
    elements_between values (Z.to_nat (Z.max 0 (Z.of_nat i - window + 1))) i in
  if decide (Z.of_nat (length elems) = window) then Some (mean elems) else None.

(** The elements one turn of the forecasting loop averages. *)
Definition tail_window {T : Type} (window : Z) (history : list T) : list T :=
  slice history (Some (- window)) None.

Section ReaderVocabulary.
Context {T : Type}.
Variable strip : string → string.
Variable fromisoformat : string → option dt_date.
Variable parse_float : string → option T.

(** A field is missing or empty: the column is absent, the line was too
    short to have it, or it holds the empty string. *)
Definition missing_or_empty (r : row) (k : string) : Prop :=
  r !! k = None ∨ r !! k = Some None ∨ r !! k = Some (Some "").

(** The point a row denotes, when both of its fields parse. *)
Definition point_of_row (r : row) : option (SeriesPoint T) :=
  ds ← row_get r "date";
  d ← fromisoformat (strip ds);
  vs ← row_get r "value";
  v ← parse_float (strip vs);
  Some (mk_point d v).

(** A row that is kept and has a field that does not parse. *)
Definition malformed (r : row) : bool :=
  negb (skipped r) && bool_decide (point_of_row r = None).

(** The points of the rows that are kept, in file order. *)
Definition surviving_points (rows : list row) : list (SeriesPoint T) :=
  omap (λ r, if skipped r then None else point_of_row r) rows.
End ReaderVocabulary.

(** Points in ascending date order. *)
Definition ascending {T : Type} (a b : SeriesPoint T) : Prop :=
  date_le (date a) (date b).

(** What both readers do with the points once they have read them. *)
Definition sorted_or_error {T : Type} (points : list (SeriesPoint T))
    : result (list (SeriesPoint T)) :=
  match sort_by_key date_ltb date points with
  | [] => Raise ValueError
  | p :: ps => Ok (p :: ps)
  end.

(** ** The rest of the command-line program *)

(** [select_history]. *)
Definition select_history {A : Type} (points : list A) (lookback : Z) : list A :=
  if lookback <=? 0 then [] else slice points (Some (- lookback)) None.

(** The comprehension
    [[add_months(series[-1].date, i + 1) for i in range(horizon)]] of both
    [main] functions. *)
Definition future_dates {T : Type} (series : list (SeriesPoint T)) (horizon : Z)
    : result (list dt_date) :=
  for_each (seq 0 (Z.to_nat horizon))
    (λ dates i,
       last ← index series (-1);
       d ← add_months (date last) (Z.of_nat i + 1);
       Ok (dates ++ [d]))
    [].

(** [s[start:stop]] on a string. *)
Definition str_slice (s : string) (start stop : option Z) : string :=
  string_of_list_ascii (slice (list_ascii_of_string s) start stop).

(** The line feed that starts some of the printed titles. *)
Definition NL : string := String "010" "".

Section Printing.
(** Output is the list of the strings handed to [print], one per call.  The
    library formatters are parameters: [date.isoformat], the format
    specifications of the f-strings applied to a value, and [str] on an
    integer. *)
Context {T : Type} `{Number T}.
Variable isoformat : dt_date → string.
Variable format_float : string → T → string.

Definition print_history_table (points : list (SeriesPoint T))
    (smoothed : list (option T)) : list string :=
  [NL +:+ "Recent history"; "Date        Actual    MA";
   "----------------------------"]
  ++ map (λ '(point, ma),
            let ma_display :=
              match ma with
              | Some m => format_float "8.2f" m
              | None => "    --  "
              end in
            isoformat (date point) +:+ "  "
            +:+ format_float "7.2f" (value point) +:+ "  " +:+ ma_display)
         (zip points (slice smoothed (Some (- Z.of_nat (length points))) None)).

Definition print_forecast_table (dates : list dt_date) (values : list T)
    : list string :=
  [NL +:+ "Forecast horizon"; "Date        Prediction"; "----------------------"]
  ++ map (λ '(d, v), isoformat d +:+ "  " +:+ format_float "10.2f" v)
         (zip dates values).

Definition print_ascii_chart (actuals forecasts : list T) : result (list string) :=
  match actuals with
  | [] => Ok []
  | _ =>
      let combined := actuals ++ forecasts in
      normalized ← sparkline combined;
      let split_idx := Z.of_nat (length actuals) in
      let history_line := str_slice normalized None (Some split_idx) in
      let future_line := str_slice normalized (Some split_idx) None in
      Ok [NL +:+ "ASCII sparkline (| separates history/prediction)";
          history_line +:+ "|" +:+ future_line]
  end.
End Printing.

(** The unrolled forecasting loop: the values [n] turns append to a history
    whose averaged slice is not empty. *)
Fixpoint forecast_values {T : Type} `{Number T} (window : Z) (n : nat)
    (history : list T) : list T :=
  match n with
  | O => []
  | S n' =>
      let m := mean (tail_window window history) in
      m :: forecast_values window n' (history ++ [m])
  end.

(** The month a date falls in, counted from year 0. *)
Definition month_index (d : dt_date) : Z := year d * 12 + (month d - 1).

(** The ramp as a list of characters, and the character the sparkline draws
    for a rational [x] between the extremes [v_min < v_max]. *)
Definition ramp : list ascii := list_ascii_of_string SPARK_CHARS.

Definition ramp_position (v_min v_max x : Q) : Z :=
  let q := Qred (Qred (x - v_min) / Qred (v_max - v_min)) in
  let scaled := Qred (q * inject_Z 9) in
  round_half_even (Qnum scaled) (Z.pos (Qden scaled)).

Module Cli.
(** The namespace [parse_args] returns. *)
Record Namespace : Type := {
  window : Z;
  horizon : Z;
  data : option string;
  history : Z;
}.

Section Demo.
(** [math.sin], [round(x, ndigits)], the three functions of the readers,
    the formatters of the tables and [str] on an integer. *)
Variable sin : float → float.
Variable round_ndigits : float → Z → float.
Variable strip : string → string.
Variable fromisoformat : string → option dt_date.
Variable parse_float : string → option float.
Variable isoformat : dt_date → string.
Variable format_float : string → float → string.
Variable str_int : Z → string.

(** [math.pi]. *)
Definition pi : float := 0x1.921fb54442d18p+1%float.

(** The value of point [i] before rounding; integers meeting a float are
    converted first, and sums associate to the left. *)
Definition demo_value (i : Z) : float :=
  let fi := FloatNum.of_Z i in
  let seasonal :=
    (FloatNum.of_Z 12 * sin (FloatNum.of_Z 2 * pi * fi / FloatNum.of_Z 12))%float in
  let trend := (0x1.ccccccccccccdp-1 * fi)%float in
  let cyclical := (FloatNum.of_Z (i mod 5 - 2) * 0x1.ccccccccccccdp+0)%float in
  (FloatNum.of_Z 120 + trend + seasonal + cyclical)%float.

Definition generate_demo_series (length : Z) : result (list (SeriesPoint float)) :=
  start ← new_date 2021 1 1;
  for_each (seq 0 (Z.to_nat length))
    (λ series i,
       d ← add_months start (Z.of_nat i);
       Ok (series ++ [mk_point d (round_ndigits (demo_value (Z.of_nat i)) 2)]))
    [].

(** [main], after [parse_args]: what is printed, and the exception that
    ends the run if there is one. *)
Definition main (args : Namespace) (fs : filesystem) : list string * option exn :=
  let computed :=
    series ← match data args with
             | Some path => load_series_from_csv strip fromisoformat parse_float fs path
             | None => generate_demo_series 36
             end;
    let values := map value series in
    smoothed ← moving_average values (window args);
    forecasts ← forecast values (window args) (horizon args);
    future ← future_dates series (horizon args);
    let history_points := select_history series (history args) in
    Ok (values, smoothed, forecasts, future, history_points) in
  match computed with
  | Raise e => ([], Some e)
  | Ok (values, smoothed, forecasts, future, history_points) =>
      let printed :=
        ["Moving-average forecasting demo";
         "Window size: " +:+ str_int (window args);
         "Forecast horizon: " +:+ str_int (horizon args)]
        ++ print_history_table isoformat format_float history_points smoothed
        ++ print_forecast_table isoformat format_float future forecasts in
      match print_ascii_chart values forecasts with
      | Ok lines => (printed ++ lines, None)
      | Raise e => (printed, Some e)
      end
  end.
End Demo.
End Cli.

(** * Properties *)

Example forecast_float_demo :
  forecast [10; 20; 30]%float 2 3 = Ok [25; 27.5; 26.25]%float.
Proof. vm_compute. reflexivity. Qed.

Example forecast_rat_demo :
  forecast [10; 20; 30]%Q 2 3 = Ok [25; 55 # 2; 105 # 4]%Q.
Proof. vm_compute. reflexivity. Qed.

Example moving_average_demo :
  moving_average [1; 2; 3; 4]%float 2 = Ok [None; Some 1.5; Some 2.5; Some 3.5]%float.
Proof. vm_compute. reflexivity. Qed.

Example sparkline_demo :
  sparkline [1; 2; 3; 10]%float = Ok " .:@".
Proof. vm_compute. reflexivity. Qed.

Example sparkline_rat_demo :
  sparkline [0; 5 # 2; 3 # 2; 9]%Q = Ok " ::@".
Proof. vm_compute. reflexivity. Qed.

Example add_months_demo :
  add_months (mk_date 2021 1 31) 1 = Ok (mk_date 2021 2 28).
Proof. reflexivity. Qed.

Example load_demo :
  Lib.load {["demand.csv" := [Lib.row_of "2021-03-01" "12.5";
                              Lib.row_of "" "7";
                              Lib.row_of " 2021-01-15 " "-3"]]} "demand.csv"
  = Ok [mk_point (mk_date 2021 1 15) (-3); mk_point (mk_date 2021 3 1) (25 # 2)]%Q.
Proof. vm_compute. reflexivity. Qed.

(** ** Loops, slices and indices *)

Lemma bind_ok {A B : Type} (a : A) (f : A → result B) : Ok a ≫= f = f a.
Proof. reflexivity. Qed.

Section LoopFacts.
Context {S A : Type}.

Lemma for_each_app (xs ys : list A) (body : S → A → result S) (s : S) :
  for_each (xs ++ ys) body s = (s' ← for_each xs body s; for_each ys body s').
Proof.
  revert s. induction xs as [|x xs IH]; intros s; simpl; [done|].
  destruct (body s x) as [s'|e]; simpl; [apply IH|done].
Qed.

(** A loop whose body can only raise exceptions in [P] only raises those. *)
Lemma for_each_raises (P : exn → Prop) (xs : list A) (body : S → A → result S) :
  (∀ s x e, body s x = Raise e → P e) →
  ∀ s e, for_each xs body s = Raise e → P e.
Proof.
  intros Hbody. induction xs as [|x xs IH]; intros s e; simpl; [done|].
  destruct (body s x) as [s'|e'] eqn:Hb; simpl.
  - apply IH.
  - intros [= <-]. eauto.
Qed.
End LoopFacts.

(** A loop that appends one computed element per turn builds a [map]. *)
Lemma for_each_append {A B : Type} (f : A → B) (xs : list A)
    (body : list B → A → result (list B)) (acc : list B) :
  (∀ acc' x, x ∈ xs → body acc' x = Ok (acc' ++ [f x])) →
  for_each xs body acc = Ok (acc ++ map f xs).
Proof.
  revert acc. induction xs as [|x xs IH]; intros acc Hbody; simpl.
  - by rewrite app_nil_r.
  - rewrite Hbody by left. simpl. rewrite IH.
    + by rewrite <- app_assoc.
    + intros acc' y Hy. apply Hbody. by right.
Qed.

Lemma index_last {A : Type} (l : list A) (x : A) : index (l ++ [x]) (-1) = Ok x.
Proof.
  unfold index. simpl. rewrite length_app. simpl.
  destruct (_ <? 0) eqn:E; [lia|].
  replace (Z.to_nat _) with (length l) by lia.
  by rewrite list_lookup_middle.
Qed.

(** The slice [values[max(0, i-w+1) : i+1]] is the run of elements the
    specification names. *)
Lemma slice_window {A : Type} (values : list A) (window : Z) (i : nat) :
  (i < length values)%nat →
  slice values (Some (Z.max 0 (Z.of_nat i - window + 1))) (Some (Z.of_nat i + 1))
  = elements_between values (Z.to_nat (Z.max 0 (Z.of_nat i - window + 1))) i.
Proof.
  intros Hi. unfold slice, elements_between, clamp_index. simpl.
  destruct (Z.max _ _ <? 0) eqn:E1; [lia|].
  destruct (Z.of_nat i + 1 <? 0) eqn:E2; [lia|].
  destruct (decide (0 < window)) as [Hw|Hw].
  - f_equal; [lia|f_equal; lia].
  - replace (Z.to_nat _) with 0%nat by lia.
    by replace (Datatypes.S i - _)%nat with 0%nat by lia.
Qed.

Lemma elements_between_length {A : Type} (values : list A) (window : Z) (i : nat) :
  (i < length values)%nat → 0 < window →
  Z.of_nat (length (elements_between values
                      (Z.to_nat (Z.max 0 (Z.of_nat i - window + 1))) i))
  = Z.min window (Z.of_nat i + 1).
Proof.
  intros Hi Hw. unfold elements_between.
  rewrite length_take, length_drop. lia.
Qed.

(** The slice [history[-w:]] for a positive [w] is the last [w] elements. *)
Lemma slice_tail_positive {A : Type} (history : list A) (window : Z) :
  0 < window →
  slice history (Some (- window)) None = last_n (Z.to_nat window) history.
Proof.
  intros Hw. unfold slice, last_n, clamp_index. simpl.
  destruct (- window <? 0) eqn:E; [|lia].
  rewrite take_ge by (rewrite length_drop; lia).
  f_equal. lia.
Qed.

(** The slice [history[-0:]] is the whole list. *)
Lemma slice_tail_zero {A : Type} (history : list A) :
  slice history (Some (- 0)) None = history.
Proof.
  unfold slice, clamp_index. simpl.
  replace (Z.to_nat (_ `min` _)) with 0%nat by lia.
  rewrite drop_0. apply take_ge. lia.
Qed.

Lemma slice_tail_length {A : Type} (history : list A) (window : Z) :
  Z.of_nat (length (slice history (Some (- window)) None))
  = if 0 <? window then Z.min window (Z.of_nat (length history))
    else Z.max 0 (Z.of_nat (length history) + window).
Proof.
  unfold slice, clamp_index. simpl.
  rewrite length_take, length_drop.
  destruct (0 <? window) eqn:E1, (- window <? 0) eqn:E2; lia.
Qed.

(** ** The mean on exact rationals *)

(** On the rational instance [py_sum] and [mean] are the sum and the
    arithmetic mean of the rational numbers, up to the choice of fraction. *)
Lemma py_sum_rational_from (xs : list Q) (acc : Q) :
  Qeq (fold_left num_add xs acc) (acc + fold_right Qplus 0%Q xs)%Q.
Proof.
  revert acc. induction xs as [|x xs IH]; intros acc; simpl.
  - by rewrite Qplus_0_r.
  - rewrite IH, Qred_correct. by rewrite Qplus_assoc.
Qed.

Lemma py_sum_rational (xs : list Q) :
  Qeq (py_sum xs) (fold_right Qplus 0%Q xs).
Proof.
  unfold py_sum. rewrite py_sum_rational_from. simpl. apply Qplus_0_l.
Qed.

Lemma mean_rational (xs : list Q) :
  Qeq (mean xs)
      (fold_right Qplus 0%Q xs / inject_Z (Z.of_nat (length xs)))%Q.
Proof.
  unfold mean. simpl. by rewrite Qred_correct, py_sum_rational.
Qed.

(** ** The smoother *)

Section Smoother.
Context {T : Type} `{Number T}.

Lemma moving_average_body_spec (values : list T) (window : Z)
    (results : list (option T)) (i : nat) :
  0 < window → (i < length values)%nat →
  moving_average_body values window results i
  = Ok (results ++ [smoothed_at values window i]).
Proof.
  intros Hw Hi. unfold moving_average_body, smoothed_at.
  rewrite slice_window by done.
  pose proof (elements_between_length values window i Hi Hw) as Hlen.
  set (elems := elements_between _ _ _) in *.
  destruct (_ <? window) eqn:E; case_decide; try lia; [done|].
  unfold truediv_int, mean.
  destruct (window =? 0) eqn:E0; [lia|]. simpl. by repeat f_equal.
Qed.

Lemma moving_average_map (values : list T) (window : Z) :
  0 < window →
  moving_average values window
  = Ok (map (smoothed_at values window) (seq 0 (length values))).
Proof.
  intros Hw. unfold moving_average.
  destruct (window <=? 0) eqn:E; [lia|].
  rewrite (for_each_append (smoothed_at values window)); [done|].
  intros acc i Hi. apply moving_average_body_spec; [done|].
  apply elem_of_seq in Hi. lia.
Qed.

(** C2.  For a positive window the smoother returns one element per input
    element; element [i] is the mean of the input elements
    [max(0, i-W+1) .. i] when there are exactly [W] of them and is undefined
    otherwise, and it is defined exactly when [i >= W-1]. *)
Theorem moving_average_spec (values : list T) (window : Z) :
  0 < window →
  ∃ out : list (option T),
    moving_average values window = Ok out ∧
    length out = length values ∧
    ∀ i : nat, (i < length values)%nat →
      let elems :=
        elements_between values (Z.to_nat (Z.max 0 (Z.of_nat i - window + 1))) i in
      out !! i = Some (if decide (Z.of_nat (length elems) = window)
                       then Some (mean elems) else None) ∧
      (Z.of_nat (length elems) = window ↔ window - 1 <= Z.of_nat i) ∧
      ((∃ m, out !! i = Some (Some m)) ↔ window - 1 <= Z.of_nat i).
Proof.
  intros Hw. eexists. split; [by apply moving_average_map|].
  split; [by rewrite length_map, length_seq|].
  intros i Hi elems.
  assert (Hout : map (smoothed_at values window) (seq 0 (length values)) !! i
                 = Some (smoothed_at values window i)).
  { rewrite list_lookup_fmap, lookup_seq_lt by done. done. }
  pose proof (elements_between_length values window i Hi Hw) as Hlen.
  fold elems in Hlen.
  assert (Hiff : Z.of_nat (length elems) = window ↔ window - 1 <= Z.of_nat i) by lia.
  split; [exact Hout|]. split; [exact Hiff|].
  rewrite Hout. unfold smoothed_at. fold elems.
  case_decide; split.
  - intros _. by apply Hiff.
  - intros _. by eexists.
  - intros [m [=]].
  - intros Hge. by apply Hiff in Hge.
Qed.

(** C5.  A window that is zero or negative makes the smoother raise the
    invalid-argument exception, whatever the input. *)
Theorem moving_average_rejects_window (values : list T) (window : Z) :
  window <= 0 → moving_average values window = Raise ValueError.
Proof.
  intros Hw. unfold moving_average.
  by destruct (window <=? 0) eqn:E; [|lia].
Qed.
End Smoother.

Lemma moving_average_spec_witness :
  ∃ out : list (option float),
    moving_average [1; 2; 3; 4]%float 2 = Ok out ∧
    length out = 4%nat ∧
    ∀ i : nat, (i < 4)%nat →
      let elems :=
        elements_between [1; 2; 3; 4]%float
          (Z.to_nat (Z.max 0 (Z.of_nat i - 2 + 1))) i in
      out !! i = Some (if decide (Z.of_nat (length elems) = 2)
                       then Some (mean elems) else None) ∧
      (Z.of_nat (length elems) = 2 ↔ 2 - 1 <= Z.of_nat i) ∧
      ((∃ m, out !! i = Some (Some m)) ↔ 2 - 1 <= Z.of_nat i).
Proof. apply (moving_average_spec [1; 2; 3; 4]%float 2). lia. Defined.

Lemma moving_average_rejects_window_witness :
  0 <= 0 ∧ moving_average [1; 2; 3]%float 0 = Raise ValueError.
Proof.
  split; [lia|]. apply (moving_average_rejects_window [1; 2; 3]%float 0). lia.
Defined.

(** ** The forecaster *)

Section Forecaster.
Context {T : Type} `{Number T}.

Lemma forecast_body_ok (window : Z) (history forecasts : list T) (k : nat) :
  tail_window window history ≠ [] →
  forecast_body window (history, forecasts) k
  = Ok (history ++ [mean (tail_window window history)],
        forecasts ++ [mean (tail_window window history)]).
Proof.
  intros Hne. unfold forecast_body. fold (tail_window window history).
  unfold truediv_int.
  destruct (_ =? 0) eqn:E.
  - destruct (tail_window window history); [done|simpl in E; lia].
  - simpl. by rewrite index_last.
Qed.

Lemma forecast_body_empty (window : Z) (history forecasts : list T) (k : nat) :
  tail_window window history = [] →
  forecast_body window (history, forecasts) k = Raise ZeroDivisionError.
Proof.
  intros He. unfold forecast_body. fold (tail_window window history).
  by rewrite He.
Qed.

Lemma forecast_body_raises (window : Z) (st : list T * list T) (k : nat) (e : exn) :
  forecast_body window st k = Raise e → e = ZeroDivisionError.
Proof.
  destruct st as [history forecasts].
  destruct (decide (tail_window window history = [])) as [He|Hne].
  - rewrite forecast_body_empty by done. congruence.
  - by rewrite forecast_body_ok.
Qed.

(** Once the averaged slice is non-empty it stays so as the history grows. *)
Lemma tail_window_grows (window : Z) (history : list T) (x : T) :
  tail_window window history ≠ [] → tail_window window (history ++ [x]) ≠ [].
Proof.
  intros Hne Hnil.
  pose proof (slice_tail_length history window) as H1.
  pose proof (slice_tail_length (history ++ [x]) window) as H2.
  fold (tail_window window history) in H1.
  fold (tail_window window (history ++ [x])) in H2.
  rewrite Hnil, length_app in H2. simpl in H2.
  destruct (tail_window window history); [done|]. simpl in H1.
  destruct (0 <? window); lia.
Qed.

(** The loop, from any state whose history gives a non-empty slice: it runs
    to the end, and each forecast is the mean of the slice of the history
    extended with the forecasts before it. *)
Lemma forecast_loop (window : Z) (n start : nat) :
  ∀ history forecasts : list T,
    tail_window window history ≠ [] →
    ∃ fs : list T,
      for_each (seq start n) (forecast_body window) (history, forecasts)
      = Ok (history ++ fs, forecasts ++ fs) ∧
      length fs = n ∧
      ∀ k : nat, (k < n)%nat →
        fs !! k = Some (mean (tail_window window (history ++ take k fs))).
Proof.
  revert start. induction n as [|n IH]; intros start history forecasts Hne.
  - exists []. simpl. rewrite !app_nil_r. split; [done|]. split; [done|lia].
  - rewrite <- cons_seq. cbn [for_each].
    rewrite forecast_body_ok by done. rewrite bind_ok.
    set (m := mean (tail_window window history)).
    destruct (IH (S start) (history ++ [m]) (forecasts ++ [m])) as (fs & Hrun & Hlen & Hfs).
    { by apply tail_window_grows. }
    exists (m :: fs). rewrite Hrun, <- !app_assoc. simpl.
    split; [done|]. split; [by rewrite Hlen|].
    intros [|k] Hk; simpl.
    + by rewrite app_nil_r.
    + rewrite Hfs by lia. by rewrite <- app_assoc.
Qed.

Lemma forecast_ok (values : list T) (window horizon : Z) :
  tail_window window values ≠ [] →
  ∃ fs : list T,
    forecast values window horizon = Ok fs ∧
    length fs = Z.to_nat horizon ∧
    ∀ k : nat, (k < length fs)%nat →
      fs !! k = Some (mean (tail_window window (values ++ take k fs))).
Proof.
  intros Hne. unfold forecast.
  destruct (horizon <=? 0) eqn:E.
  - exists []. split; [done|]. split; [simpl; lia|]. simpl. lia.
  - destruct (forecast_loop window (Z.to_nat horizon) 0 values [] Hne)
      as (fs & Hrun & Hlen & Hfs).
    exists fs. rewrite Hrun. simpl. split; [done|]. split; [done|].
    by rewrite Hlen.
Qed.

Lemma forecast_raises (values : list T) (window horizon : Z) (e : exn) :
  forecast values window horizon = Raise e → e = ZeroDivisionError.
Proof.
  unfold forecast. destruct (horizon <=? 0); [done|].
  destruct (for_each _ _ _) as [st|e'] eqn:Hrun; simpl; [done|].
  intros [= <-].
  eapply (for_each_raises (λ e, e = ZeroDivisionError)); [|exact Hrun].
  intros s x e0. apply forecast_body_raises.
Qed.

Lemma tail_window_nonempty (window : Z) (history : list T) :
  0 <= window → history ≠ [] → tail_window window history ≠ [].
Proof.
  intros Hw Hne Hnil.
  pose proof (slice_tail_length history window) as Hlen.
  fold (tail_window window history) in Hlen. rewrite Hnil in Hlen.
  destruct history; [done|]. simpl in Hlen.
  destruct (0 <? window) eqn:E; lia.
Qed.

Lemma last_n_snoc (n : nat) (l : list T) (x : T) :
  last_n (S n) (l ++ [x]) = last_n n l ++ [x].
Proof.
  unfold last_n. rewrite length_app. simpl.
  replace (length l + 1 - S n)%nat with (length l - n)%nat by lia.
  apply drop_app_le. lia.
Qed.
End Forecaster.

Section ForecasterClaims.
Context {T : Type} `{Number T}.

(** C1 (amended).  For a non-empty input (or a horizon of zero), a positive
    window and a horizon [H >= 0], the forecaster returns exactly [H]
    values; value [k] is the mean of the last [W] elements of the input
    extended with the values before it, so that for [k > 0] the averaged
    elements end with value [k-1]; a horizon of zero gives the empty list. *)
Theorem forecast_iterative (values : list T) (window horizon : Z) :
  0 < window → 0 <= horizon → values ≠ [] ∨ horizon = 0 →
  ∃ fs : list T,
    forecast values window horizon = Ok fs ∧
    length fs = Z.to_nat horizon ∧
    (∀ k : nat, (k < length fs)%nat →
       fs !! k = Some (mean (last_n (Z.to_nat window) (values ++ take k fs)))) ∧
    (∀ k : nat, (S k < length fs)%nat →
       ∃ (pre : list T) (x : T),
         fs !! k = Some x ∧
         last_n (Z.to_nat window) (values ++ take (S k) fs) = pre ++ [x]) ∧
    (horizon = 0 → fs = []).
Proof.
  intros Hw Hh [Hne| ->].
  - destruct (forecast_ok values window horizon) as (fs & Hrun & Hlen & Hfs).
    { apply tail_window_nonempty; [lia|done]. }
    exists fs. split; [done|]. split; [done|]. repeat split.
    + intros k Hk. rewrite Hfs by done. unfold tail_window.
      by rewrite slice_tail_positive.
    + intros k Hk.
      destruct (lookup_lt_is_Some_2 fs k) as [x Hx]; [lia|].
      exists (last_n (Z.to_nat window - 1) (values ++ take k fs)), x.
      split; [done|].
      rewrite (take_S_r _ _ _ Hx), app_assoc.
      replace (Z.to_nat window) with (S (Z.to_nat window - 1)) at 1 by lia.
      apply last_n_snoc.
    + intros ->. by destruct fs.
  - exists []. unfold forecast. simpl. repeat split; intros; simpl in *; lia || done.
Qed.

(** C4 (amended).  For a non-empty input (or a horizon that asks for no
    value) and a positive window the forecaster raises nothing; while the
    working history has fewer than [W] elements, the value appended is the
    mean of all of it. *)
Theorem forecast_short_history (values : list T) (window horizon : Z) :
  0 < window → values ≠ [] ∨ horizon <= 0 →
  ∃ fs : list T,
    forecast values window horizon = Ok fs ∧
    ∀ k : nat, (k < length fs)%nat →
      Z.of_nat (length values + k) < window →
      fs !! k = Some (mean (values ++ take k fs)).
Proof.
  intros Hw [Hne|Hh].
  - destruct (forecast_ok values window horizon) as (fs & Hrun & Hlen & Hfs).
    { apply tail_window_nonempty; [lia|done]. }
    exists fs. split; [done|]. intros k Hk Hshort.
    rewrite Hfs by done. unfold tail_window.
    rewrite slice_tail_positive by done. unfold last_n.
    replace (_ - _)%nat with 0%nat; [done|].
    rewrite length_app, length_take. lia.
  - exists []. unfold forecast.
    replace (horizon <=? 0) with true by lia.
    split; [done|]. simpl. lia.
Qed.

(** C10.  The forecaster validates no window size: for a window that is
    zero or negative, a non-empty input and a positive horizon it never
    raises the invalid-argument exception, and with a window of zero every
    value appended is the mean of the whole working history. *)
Theorem forecast_no_window_validation (values : list T) (window horizon : Z) :
  window <= 0 → values ≠ [] → 0 < horizon →
  forecast values window horizon ≠ Raise ValueError ∧
  (window = 0 →
   ∃ fs : list T,
     forecast values window horizon = Ok fs ∧
     length fs = Z.to_nat horizon ∧
     ∀ k : nat, (k < length fs)%nat →
       fs !! k = Some (mean (values ++ take k fs))).
Proof.
  intros Hw Hne Hh. split.
  - intros Hraise. by apply forecast_raises in Hraise.
  - intros ->.
    destruct (forecast_ok values 0 horizon) as (fs & Hrun & Hlen & Hfs).
    { by apply tail_window_nonempty. }
    exists fs. split; [done|]. split; [done|].
    intros k Hk. rewrite Hfs by done. unfold tail_window.
    by rewrite slice_tail_zero.
Qed.
End ForecasterClaims.

(** C6.  On the input [10, 20, 30] with window 2 and horizon 3 the
    forecaster returns [25.0, 27.5, 26.25], in binary64 arithmetic as in exact
    arithmetic. *)
Theorem forecast_worked_example :
  forecast [10; 20; 30]%float 2 3 = Ok [25; 27.5; 26.25]%float ∧
  forecast [10; 20; 30]%Q 2 3 = Ok [25; 55 # 2; 105 # 4]%Q.
Proof. split; vm_compute; reflexivity. Qed.

(** C1, as stated, fails on the empty input: with a horizon of one the first
    turn of the loop divides by the length of an empty slice, and no
    sequence of one value is returned. *)
Lemma forecast_empty_input_raises :
  forecast ([] : list float) 1 1 = Raise ZeroDivisionError ∧
  ¬ ∃ fs : list float,
      forecast ([] : list float) 1 1 = Ok fs ∧ length fs = Z.to_nat 1.
Proof. split; [reflexivity|]. by intros (fs & [=] & _). Qed.

(** C4, as stated, fails on the empty input: nothing is available to
    average and the division raises. *)
Lemma forecast_nothing_available :
  forecast ([] : list Q) 3 2 = Raise ZeroDivisionError ∧
  ¬ ∃ fs : list Q, forecast ([] : list Q) 3 2 = Ok fs.
Proof. split; [reflexivity|]. by intros (fs & [=]). Qed.

Lemma forecast_iterative_witness :
  ∃ fs : list float,
    forecast [10; 20; 30]%float 2 3 = Ok fs ∧
    length fs = Z.to_nat 3 ∧
    (∀ k : nat, (k < length fs)%nat →
       fs !! k = Some (mean (last_n (Z.to_nat 2) ([10; 20; 30]%float ++ take k fs)))) ∧
    (∀ k : nat, (S k < length fs)%nat →
       ∃ (pre : list float) (x : float),
         fs !! k = Some x ∧
         last_n (Z.to_nat 2) ([10; 20; 30]%float ++ take (S k) fs) = pre ++ [x]) ∧
    (3 = 0 → fs = []).
Proof.
  apply (forecast_iterative [10; 20; 30]%float 2 3); [lia|lia|by left].
Defined.

Lemma forecast_short_history_witness :
  ∃ fs : list float,
    forecast [4; 8]%float 5 4 = Ok fs ∧
    ∀ k : nat, (k < length fs)%nat →
      Z.of_nat (length [4; 8]%float + k) < 5 →
      fs !! k = Some (mean ([4; 8]%float ++ take k fs)).
Proof. apply (forecast_short_history [4; 8]%float 5 4); [lia|by left]. Defined.

Lemma forecast_no_window_validation_witness :
  forecast [1; 2]%float 0 2 ≠ Raise ValueError ∧
  (0 = 0 →
   ∃ fs : list float,
     forecast [1; 2]%float 0 2 = Ok fs ∧
     length fs = Z.to_nat 2 ∧
     ∀ k : nat, (k < length fs)%nat →
       fs !! k = Some (mean ([1; 2]%float ++ take k fs))).
Proof.
  apply (forecast_no_window_validation [1; 2]%float 0 2); [lia|done|lia].
Defined.

Example forecast_short_demo :
  forecast [4; 8]%float 5 4 = Ok [6; 6; 6; 6]%float.
Proof. vm_compute. reflexivity. Qed.

Example forecast_negative_window_demo :
  forecast [1; 2; 3]%float (-1) 2 = Ok [2.5; 2.5]%float ∧
  forecast [1]%float (-1) 1 = Raise ZeroDivisionError.
Proof. split; vm_compute; reflexivity. Qed.

(** ** The date stepper *)

Lemma days_in_month_bounds (y m : Z) :
  1 <= m <= 12 → 28 <= days_in_month y m <= 31.
Proof.
  intros Hm. unfold days_in_month.
  assert (Hcases : m = 1 ∨ m = 2 ∨ m = 3 ∨ m = 4 ∨ m = 5 ∨ m = 6 ∨ m = 7
                   ∨ m = 8 ∨ m = 9 ∨ m = 10 ∨ m = 11 ∨ m = 12) by lia.
  destruct_or! Hcases; subst m; simpl; destruct (isleap y); simpl; lia.
Qed.

Lemma new_date_ok (y m d : Z) :
  valid_date (mk_date y m d) → new_date y m d = Ok (mk_date y m d).
Proof.
  unfold valid_date, MINYEAR, MAXYEAR. simpl. intros (Hy & Hm & Hd).
  pose proof (days_in_month_bounds y m Hm) as Hb.
  unfold new_date, fits_c_int, MINYEAR, MAXYEAR.
  repeat match goal with
         | |- context [if negb ?b then _ else _] =>
             replace b with true by lia; cbn [negb]
         end.
  done.
Qed.

Lemma new_date_year_out_of_range (y m d : Z) :
  ¬ (MINYEAR <= y <= MAXYEAR) → ∃ e, new_date y m d = Raise e.
Proof.
  unfold MINYEAR, MAXYEAR. intros Hy. unfold new_date.
  destruct (negb (fits_c_int y && _ && _)); [by eexists|].
  unfold MINYEAR, MAXYEAR.
  replace ((1 <=? y) && (y <=? 9999)) with false by lia. by eexists.
Qed.

(** C3 (amended).  For a calendar date [D] and an integer [M] such that the
    target year [D.year + (D.month - 1 + M) div 12] lies in 1..9999, the date
    stepper returns the date with that year, month
    [(D.month - 1 + M) mod 12 + 1] (floor division and modulo) and day
    [min(D.day, days in the target month)], itself a calendar date. *)
Theorem add_months_in_range (d : dt_date) (months : Z) :
  valid_date d →
  MINYEAR <= year d + (month d - 1 + months) / 12 <= MAXYEAR →
  let y := year d + (month d - 1 + months) / 12 in
  let m := (month d - 1 + months) mod 12 + 1 in
  add_months d months = Ok (mk_date y m (Z.min (day d) (days_in_month y m))) ∧
  valid_date (mk_date y m (Z.min (day d) (days_in_month y m))).
Proof.
  intros (_ & _ & Hday) Hyear y m.
  assert (Hm : 1 <= m <= 12).
  { subst m. pose proof (Z.mod_pos_bound (month d - 1 + months) 12). lia. }
  pose proof (days_in_month_bounds y m Hm) as Hb.
  assert (Hvalid : valid_date (mk_date y m (Z.min (day d) (days_in_month y m)))).
  { unfold valid_date. simpl. fold y in Hyear. lia. }
  split; [|done].
  unfold add_months. fold y m. unfold monthrange_ndays.
  replace ((1 <=? m) && (m <=? 12)) with true by lia.
  rewrite bind_ok. by apply new_date_ok.
Qed.

(** The stepper raises as soon as the target year leaves 1..9999. *)
Lemma add_months_out_of_range (d : dt_date) (months : Z) :
  ¬ (MINYEAR <= year d + (month d - 1 + months) / 12 <= MAXYEAR) →
  ∃ e, add_months d months = Raise e.
Proof.
  intros Hyear. unfold add_months, monthrange_ndays.
  pose proof (Z.mod_pos_bound (month d - 1 + months) 12).
  replace ((1 <=? _) && (_ <=? 12)) with true by lia.
  rewrite bind_ok. by apply new_date_year_out_of_range.
Qed.

(** C3, as stated for every date and every number of months, fails where
    the target year has no calendar date: one month after 9999-12-31. *)
Lemma add_months_past_last_year :
  valid_date (mk_date 9999 12 31) ∧
  add_months (mk_date 9999 12 31) 1 = Raise ValueError.
Proof.
  split; [|reflexivity]. by vm_compute.
Qed.

Lemma add_months_in_range_witness :
  (add_months (mk_date 2021 1 31) 1 = Ok (mk_date 2021 2 28) ∧
   valid_date (mk_date 2021 2 28)) ∧
  (add_months (mk_date 2020 1 31) 1 = Ok (mk_date 2020 2 29) ∧
   valid_date (mk_date 2020 2 29)).
Proof.
  split.
  - apply (add_months_in_range (mk_date 2021 1 31) 1);
      by vm_compute.
  - apply (add_months_in_range (mk_date 2020 1 31) 1);
      by vm_compute.
Defined.

Example add_months_backwards :
  add_months (mk_date 2021 3 31) (-13) = Ok (mk_date 2020 2 29) ∧
  add_months (mk_date 1 1 15) (-1) = Raise ValueError.
Proof. split; reflexivity. Qed.

(** ** The sparkline *)

Section SparklineFacts.
Context {T : Type} `{Number T}.

Lemma fold_left_constant (f : T → T → T) (x : T) (n : nat) :
  f x x = x → fold_left f (replicate n x) x = x.
Proof.
  intros Hf. induction n as [|n IH]; simpl; [done|]. by rewrite Hf.
Qed.

Lemma py_min_constant (x : T) (n : nat) : py_min (replicate (S n) x) = Ok x.
Proof.
  simpl. f_equal. apply fold_left_constant. by destruct (num_ltb x x).
Qed.

Lemma py_max_constant (x : T) (n : nat) : py_max (replicate (S n) x) = Ok x.
Proof.
  simpl. f_equal. apply fold_left_constant. by destruct (num_ltb x x).
Qed.

Lemma str_mul_succ (c : ascii) (n : nat) :
  str_mul (String c "") (S n) = String c (str_mul (String c "") n).
Proof. reflexivity. Qed.

Lemma str_mul_length (c : ascii) (n : nat) :
  String.length (str_mul (String c "") n) = n.
Proof.
  induction n as [|n IH]; [done|]. rewrite str_mul_succ. simpl. by rewrite IH.
Qed.

Lemma str_mul_get (c : ascii) (n i : nat) :
  (i < n)%nat → String.get i (str_mul (String c "") n) = Some c.
Proof.
  revert i. induction n as [|n IH]; intros i Hi; [lia|].
  rewrite str_mul_succ. destruct i as [|i]; simpl; [done|]. apply IH. lia.
Qed.

(** C9.  For a non-empty sequence of one repeated value (a number, equal to
    itself) the sparkline is returned without any division: it has one
    character per element and each is the middle character of the
    ten-character ramp. *)
Theorem sparkline_constant (x : T) (n : nat) :
  num_eqb x x = true →
  sparkline (replicate (S n) x) = Ok (str_mul "=" (S n)) ∧
  String.length (str_mul "=" (S n)) = length (replicate (S n) x) ∧
  String.length SPARK_CHARS = 10%nat ∧
  ∀ i : nat, (i < S n)%nat →
    String.get i (str_mul "=" (S n))
    = String.get ((String.length SPARK_CHARS - 1) / 2) SPARK_CHARS.
Proof.
  intros Hx. split; [|split; [|split]].
  - unfold sparkline.
    rewrite py_min_constant, py_max_constant. simpl.
    rewrite Hx. by rewrite length_replicate.
  - by rewrite str_mul_length, length_replicate.
  - done.
  - intros i Hi. by rewrite str_mul_get.
Qed.
End SparklineFacts.

Lemma sparkline_constant_witness :
  sparkline (replicate 3 5%float) = Ok (str_mul "=" 3) ∧
  String.length (str_mul "=" 3) = length (replicate 3 5%float) ∧
  String.length SPARK_CHARS = 10%nat ∧
  ∀ i : nat, (i < 3)%nat →
    String.get i (str_mul "=" 3)
    = String.get ((String.length SPARK_CHARS - 1) / 2) SPARK_CHARS.
Proof. apply (sparkline_constant 5%float 2). reflexivity. Defined.

Example sparkline_constant_demo :
  sparkline [5; 5; 5]%float = Ok "===" ∧ sparkline [5; 5; 5]%Q = Ok "===".
Proof. split; vm_compute; reflexivity. Qed.

(** Exact rationals are all equal to themselves. *)
Lemma rational_eqb_refl (x : Q) : num_eqb x x = true.
Proof. apply Qeq_bool_refl. Qed.

(** A float that is not a number is not: for it the constant sequence takes
    the other branch and the conversion to an integer raises. *)
Example sparkline_nan_demo :
  sparkline [nan; nan]%float = Raise ValueError.
Proof. vm_compute. reflexivity. Qed.

(** ** Sorting by date *)

Lemma date_ltb_asym (a b : dt_date) : date_ltb a b = true → date_ltb b a = false.
Proof. destruct a, b. unfold date_ltb. simpl. lia. Qed.

Lemma date_le_antisym (a b : dt_date) : date_le a b → date_le b a → a = b.
Proof.
  destruct a as [y1 m1 d1], b as [y2 m2 d2]. unfold date_le, date_ltb. simpl.
  intros H1 H2.
  assert (y1 = y2) by lia. assert (m1 = m2) by lia. assert (d1 = d2) by lia.
  congruence.
Qed.

#[global] Instance ascending_trans {T : Type} : Transitive (@ascending T).
Proof.
  intros [[y1 m1 d1] v1] [[y2 m2 d2] v2] [[y3 m3 d3] v3].
  unfold ascending, date_le, date_ltb. simpl. lia.
Qed.

Section SortFacts.
Context {T : Type}.
Implicit Types (p : SeriesPoint T) (l : list (SeriesPoint T)).

Lemma insert_by_key_perm p l : insert_by_key date_ltb date p l ≡ₚ p :: l.
Proof.
  induction l as [|q l IH]; simpl; [done|].
  destruct (date_ltb (date q) (date p)); [|done].
  rewrite IH. apply Permutation_swap.
Qed.

Lemma sort_by_key_perm l : sort_by_key date_ltb date l ≡ₚ l.
Proof.
  induction l as [|p l IH]; simpl; [done|].
  rewrite insert_by_key_perm. by constructor.
Qed.

Lemma insert_by_key_hd p q l :
  ascending q p → HdRel ascending q l →
  HdRel ascending q (insert_by_key date_ltb date p l).
Proof.
  intros Hqp Hhd. destruct l as [|r l]; simpl; [by constructor|].
  destruct (date_ltb (date r) (date p)); constructor; [|done].
  by inv Hhd.
Qed.

Lemma insert_by_key_sorted p l :
  Sorted ascending l → Sorted ascending (insert_by_key date_ltb date p l).
Proof.
  induction 1 as [|q l Hl IH Hhd]; simpl; [by repeat constructor|].
  destruct (date_ltb (date q) (date p)) eqn:E.
  - constructor; [done|]. apply insert_by_key_hd; [|done].
    unfold ascending, date_le. by apply date_ltb_asym.
  - constructor; [by constructor|]. by constructor.
Qed.

Lemma sort_by_key_sorted l : Sorted ascending (sort_by_key date_ltb date l).
Proof.
  induction l as [|p l IH]; simpl; [constructor|].
  by apply insert_by_key_sorted.
Qed.

Lemma sort_by_key_nil l : sort_by_key date_ltb date l = [] ↔ l = [].
Proof.
  split; [|by intros ->].
  intros Hnil. apply Permutation_nil. by rewrite <- Hnil, sort_by_key_perm.
Qed.

Lemma same_date_same_point p q l :
  NoDup (map date l) → p ∈ l → q ∈ l → date p = date q → p = q.
Proof.
  induction l as [|r l IH]; simpl; [by intros _ ?%elem_of_nil|].
  intros [Hr Hl]%NoDup_cons Hp Hq Hd.
  apply elem_of_cons in Hp as [->|Hp], Hq as [->|Hq]; [done| | |by apply IH].
  - exfalso. apply Hr. rewrite Hd. by apply list_elem_of_fmap_2.
  - exfalso. apply Hr. rewrite <- Hd. by apply list_elem_of_fmap_2.
Qed.

(** With pairwise different dates the sorted list does not depend on the
    order the points arrive in. *)
Lemma sort_by_key_perm_eq l1 l2 :
  NoDup (map date l1) → l1 ≡ₚ l2 →
  sort_by_key date_ltb date l1 = sort_by_key date_ltb date l2.
Proof.
  intros Hnd Hperm.
  apply (Sorted_unique_strong ascending); try apply sort_by_key_sorted.
  - intros p q Hp Hq Hpq Hqp.
    rewrite sort_by_key_perm in Hp. rewrite sort_by_key_perm, <- Hperm in Hq.
    apply (same_date_same_point p q l1); [done..|].
    by apply date_le_antisym.
  - by rewrite !sort_by_key_perm.
Qed.
End SortFacts.

(** ** The CSV readers *)

Lemma truthy_false (o : option string) :
  truthy o = false ↔ o = None ∨ o = Some "".
Proof.
  destruct o as [s|]; simpl; [|by split; [left|]].
  destruct (String.eqb_spec s "") as [->|Hne]; simpl.
  - by split; [right|].
  - split; [done|]. intros [[=]|[=]]. done.
Qed.

Lemma row_get_missing_or_empty (r : row) (k : string) :
  truthy (row_get r k) = false ↔ missing_or_empty r k.
Proof.
  rewrite truthy_false. unfold row_get, missing_or_empty.
  destruct (r !! k) as [[s|]|]; simpl;
    intuition (try discriminate; try congruence).
Qed.

Lemma skipped_iff (r : row) :
  skipped r = true ↔ missing_or_empty r "date" ∨ missing_or_empty r "value".
Proof.
  unfold skipped. rewrite orb_true_iff, !negb_true_iff.
  by rewrite !row_get_missing_or_empty.
Qed.

Lemma kept_row_str (r : row) (k : string) :
  truthy (row_get r k) = true → ∃ s, row_get r k = Some s ∧ row_str r k = Ok s.
Proof.
  unfold row_get, row_str. destruct (r !! k) as [[s|]|]; simpl; [|done..].
  intros _. by exists s.
Qed.

Section ReaderFacts.
Context {T : Type}.
Variable strip : string → string.
Variable fromisoformat : string → option dt_date.
Variable parse_float : string → option T.

Local Abbreviation read_row := (read_row strip fromisoformat parse_float).
Local Abbreviation point_of_row := (point_of_row strip fromisoformat parse_float).
Local Abbreviation malformed := (malformed strip fromisoformat parse_float).
Local Abbreviation surviving_points := (surviving_points strip fromisoformat parse_float).
Local Abbreviation load_series_from_csv :=
  (load_series_from_csv strip fromisoformat parse_float).
Local Abbreviation parse_uploaded_csv :=
  (parse_uploaded_csv strip fromisoformat parse_float).

(** One turn of the reading loop: a skipped row leaves the points as they
    are, a kept row appends its point or raises. *)
Lemma read_row_spec (points : list (SeriesPoint T)) (r : row) :
  read_row points r
  = if skipped r then Ok points
    else match point_of_row r with
         | Some p => Ok (points ++ [p])
         | None => Raise ValueError
         end.
Proof.
  unfold read_row, point_of_row.
  destruct (skipped r) eqn:Hs; [done|].
  unfold skipped in Hs. apply orb_false_iff in Hs as [Hd Hv].
  apply negb_false_iff in Hd, Hv.
  destruct (kept_row_str r "date" Hd) as (ds & -> & ->).
  destruct (kept_row_str r "value" Hv) as (vs & -> & ->).
  simpl. destruct (fromisoformat (strip ds)) as [d|]; simpl; [|done].
  by destruct (parse_float (strip vs)).
Qed.

Lemma read_rows_spec (rows : list row) (points : list (SeriesPoint T)) :
  for_each rows read_row points
  = if existsb malformed rows then Raise ValueError
    else Ok (points ++ surviving_points rows).
Proof.
  revert points. induction rows as [|r rows IH]; intros points; simpl.
  - by rewrite app_nil_r.
  - rewrite read_row_spec. unfold malformed at 1.
    destruct (skipped r); simpl.
    + by rewrite IH.
    + destruct (point_of_row r) as [p|]; simpl; [|done].
      rewrite IH. destruct (existsb _ _); [done|]. by rewrite <- app_assoc.
Qed.



Lemma surviving_points_nil (rows : list row) :
  existsb malformed rows = false →
  surviving_points rows = [] ↔ Forall (λ r, skipped r = true) rows.
Proof.
  unfold surviving_points, malformed.
  induction rows as [|r rows IH]; simpl; [done|].
  intros [Hr Hrows]%orb_false_iff. rewrite Forall_cons.
  destruct (skipped r); simpl in *.
  - rewrite IH by done. tauto.
  - apply bool_decide_eq_false in Hr.
    destruct (point_of_row r); [|done]. split; [done|]. by intros [? _].
Qed.

Lemma load_series_from_csv_rows (fs : filesystem) (path : string) (rows : list row) :
  fs !! path = Some rows →
  load_series_from_csv fs path
  = if existsb malformed rows then Raise ValueError
    else sorted_or_error (surviving_points rows).
Proof.
  intros Hfile. unfold load_series_from_csv. rewrite Hfile, read_rows_spec.
  destruct (existsb _ _); [done|]. simpl. unfold sorted_or_error.
  by destruct (sort_by_key _ _ _).
Qed.

Lemma parse_uploaded_csv_rows (buffer : upload) (rows : list row) :
  buffer = UploadedFile rows ∨ buffer = RawBytes rows →
  parse_uploaded_csv buffer
  = if existsb malformed rows then Raise ValueError
    else sorted_or_error (surviving_points rows).
Proof.
  intros [-> | ->]; unfold parse_uploaded_csv; rewrite bind_ok, read_rows_spec;
    (destruct (existsb _ _); [done|]); simpl; unfold sorted_or_error;
    by destruct (sort_by_key _ _ _).
Qed.

Lemma sorted_or_error_ok (points : list (SeriesPoint T)) :
  points ≠ [] →
  sorted_or_error points = Ok (sort_by_key date_ltb date points).
Proof.
  intros Hne. unfold sorted_or_error.
  destruct (sort_by_key _ _ _) eqn:E; [|done].
  by apply (proj1 (sort_by_key_nil points)) in E.
Qed.

(** C7 (amended).  A path that does not exist raises the not-found
    exception, and nothing else does.  For a file that exists, the rows with
    a missing or empty date or value are skipped; the reader raises the
    data-validation exception exactly when some kept row has a field that
    does not parse or when no row is kept; otherwise it returns the points
    of the kept rows, in ascending date order, and they are not empty. *)
Theorem load_series_from_csv_spec (fs : filesystem) (path : string) :
  (load_series_from_csv fs path = Raise FileNotFoundError ↔ fs !! path = None) ∧
  (∀ r : row,
     skipped r = true ↔ missing_or_empty r "date" ∨ missing_or_empty r "value") ∧
  ∀ rows : list row, fs !! path = Some rows →
    (load_series_from_csv fs path = Raise ValueError
     ↔ Exists (λ r, malformed r = true) rows ∨ Forall (λ r, skipped r = true) rows) ∧
    (¬ (Exists (λ r, malformed r = true) rows ∨ Forall (λ r, skipped r = true) rows) →
     ∃ points : list (SeriesPoint T),
       load_series_from_csv fs path = Ok points ∧
       points ≠ [] ∧
       points ≡ₚ surviving_points rows ∧
       Sorted ascending points).
Proof.
  split; [|split; [apply skipped_iff|]].
  - destruct (fs !! path) as [rows|] eqn:Hfile.
    + rewrite (load_series_from_csv_rows fs path rows Hfile).
      split; [|done]. destruct (existsb _ _); [done|].
      unfold sorted_or_error. by destruct (sort_by_key _ _ _).
    + unfold load_series_from_csv. by rewrite Hfile.
  - intros rows Hfile.
    rewrite (load_series_from_csv_rows fs path rows Hfile).
    destruct (existsb malformed rows) eqn:Hbad.
    + assert (Exists (λ r, malformed r = true) rows) as Hex.
      { apply existsb_exists in Hbad as (r & Hin & Hr).
        apply Exists_exists. exists r. by rewrite list_elem_of_In. }
      split; [naive_solver|]. intros []. by left.
    + assert (¬ Exists (λ r, malformed r = true) rows) as Hnex.
      { intros (r & Hin & Hr)%Exists_exists.
        assert (existsb malformed rows = true); [|congruence].
        apply existsb_exists. exists r. by rewrite <- list_elem_of_In. }
      pose proof (surviving_points_nil rows Hbad) as Hnil.
      destruct (decide (surviving_points rows = [])) as [He|Hne].
      * rewrite He. split; [|by intros []; right; apply Hnil].
        split; [intros _; right; by apply Hnil|done].
      * rewrite sorted_or_error_ok by done. split.
        -- split; [done|]. intros [?|?%Hnil]; done.
        -- intros _. eexists. split; [done|]. split; [|split].
           ++ by rewrite sort_by_key_nil.
           ++ apply sort_by_key_perm.
           ++ apply sort_by_key_sorted.
Qed.


(** Rows that already come in strictly ascending date order are returned as
    they are. *)
Lemma load_sorted_rows (rows : list row) (path : string) :
  existsb malformed rows = false →
  surviving_points rows ≠ [] →
  Sorted ascending (surviving_points rows) →
  NoDup (map date (surviving_points rows)) →
  load_series_from_csv {[path := rows]} path = Ok (surviving_points rows).
Proof.
  intros Hbad Hne Hsorted Hnd.
  rewrite (load_series_from_csv_rows _ path rows) by apply lookup_singleton_eq.
  rewrite Hbad, sorted_or_error_ok by done. f_equal.
  apply (Sorted_unique_strong ascending); [|apply sort_by_key_sorted|done|].
  - intros p q Hp Hq Hpq Hqp. rewrite sort_by_key_perm in Hp.
    apply (same_date_same_point p q (surviving_points rows)); [done..|].
    by apply date_le_antisym.
  - apply sort_by_key_perm.
Qed.
End ReaderFacts.

(** C7, as stated, fails on a file with one well-formed row and one row
    whose date does not parse: a valid record remains, and the reader raises
    the data-validation exception all the same. *)
Lemma load_raises_with_a_valid_record :
  Lib.load {["sales.csv" := [Lib.row_of "2021-01-01" "1.5";
                             Lib.row_of "tomorrow" "2"]]} "sales.csv"
  = Raise ValueError ∧
  surviving_points Lib.strip Lib.fromisoformat Lib.parse_float
    [Lib.row_of "2021-01-01" "1.5"; Lib.row_of "tomorrow" "2"]
  = [mk_point (mk_date 2021 1 1) (3 # 2)%Q].
Proof. split; vm_compute; reflexivity. Qed.

Lemma load_series_from_csv_spec_witness :
  Lib.load ∅ "missing.csv" = Raise FileNotFoundError ∧
  Lib.load {["blank.csv" := [Lib.row_of "2021-01-01" ""; Lib.row_of "2021-02-01" ""]]}
    "blank.csv" = Raise ValueError.
Proof.
  split.
  - apply (proj1 (load_series_from_csv_spec
                    Lib.strip Lib.fromisoformat Lib.parse_float ∅ "missing.csv")).
    reflexivity.
  - apply (proj1 (proj2 (proj2 (load_series_from_csv_spec
                    Lib.strip Lib.fromisoformat Lib.parse_float
                    {["blank.csv" := [Lib.row_of "2021-01-01" "";
                                      Lib.row_of "2021-02-01" ""]]} "blank.csv"))
                  [Lib.row_of "2021-01-01" ""; Lib.row_of "2021-02-01" ""]
                  (lookup_singleton_eq _ _))).
    right. repeat constructor.
Defined.


Example load_reversed_demo :
  Lib.load {["demand.csv" := [Lib.row_of "2021-03-01" "11";
                              Lib.row_of "2021-02-01" "12.5";
                              Lib.row_of "2021-01-01" "10"]]} "demand.csv"
  = Ok [mk_point (mk_date 2021 1 1) 10; mk_point (mk_date 2021 2 1) (25 # 2);
        mk_point (mk_date 2021 3 1) 11]%Q.
Proof. vm_compute. reflexivity. Qed.

(** A field of spaces only is not skipped: it is stripped to the empty
    string, which does not parse. *)
Example load_whitespace_field_demo :
  Lib.load {["demand.csv" := [Lib.row_of "2021-03-01" "11";
                              Lib.row_of "2021-02-01" "  "]]} "demand.csv"
  = Raise ValueError.
Proof. vm_compute. reflexivity. Qed.

(** With a repeated date the order of arrival shows in the result. *)
Example load_repeated_date_demo :
  Lib.load {["d.csv" := [Lib.row_of "2021-03-01" "1"; Lib.row_of "2021-03-01" "2"]]} "d.csv"
  ≠ Lib.load {["d.csv" := rev [Lib.row_of "2021-03-01" "1"; Lib.row_of "2021-03-01" "2"]]} "d.csv".
Proof. vm_compute. discriminate. Qed.

(** ** More on the smoother and the forecaster *)

Section ForecastValues.
Context {T : Type} `{Number T}.

Lemma tail_window_empty_iff (window : Z) (history : list T) :
  tail_window window history = []
  ↔ Z.of_nat (length history) <= Z.max 0 (- window).
Proof.
  pose proof (slice_tail_length history window) as Hlen.
  fold (tail_window window history) in Hlen.
  destruct (tail_window window history) as [|x l]; simpl in Hlen.
  - split; [intros _|done]. destruct (0 <? window) eqn:E; lia.
  - split; [done|]. intros Hle. destruct (0 <? window) eqn:E; lia.
Qed.

Lemma tail_window_app_nonempty (window : Z) (history more : list T) :
  tail_window window history ≠ [] → tail_window window (history ++ more) ≠ [].
Proof.
  rewrite !tail_window_empty_iff, length_app. lia.
Qed.

Lemma forecast_loop_values (window : Z) (n start : nat) :
  ∀ history forecasts : list T,
    tail_window window history ≠ [] →
    for_each (seq start n) (forecast_body window) (history, forecasts)
    = Ok (history ++ forecast_values window n history,
          forecasts ++ forecast_values window n history).
Proof.
  revert start. induction n as [|n IH]; intros start history forecasts Hne.
  - simpl. by rewrite !app_nil_r.
  - rewrite <- cons_seq. cbn [for_each].
    rewrite forecast_body_ok by done. rewrite bind_ok.
    rewrite IH by (by apply tail_window_app_nonempty).
    cbn [forecast_values]. by rewrite <- !app_assoc.
Qed.

(** The forecaster in closed form. *)
Lemma forecast_closed_form (values : list T) (window horizon : Z) :
  forecast values window horizon
  = if horizon <=? 0 then Ok []
    else match tail_window window values with
         | [] => Raise ZeroDivisionError
         | _ => Ok (forecast_values window (Z.to_nat horizon) values)
         end.
Proof.
  unfold forecast. destruct (horizon <=? 0) eqn:Hh; [done|].
  destruct (tail_window window values) as [|x l] eqn:Hw.
  - assert (Z.to_nat horizon = S (Z.to_nat horizon - 1)) as -> by lia.
    rewrite <- cons_seq. cbn [for_each].
    by rewrite forecast_body_empty.
  - rewrite forecast_loop_values by (by rewrite Hw). by rewrite bind_ok.
Qed.

Lemma forecast_values_length (window : Z) (n : nat) (history : list T) :
  length (forecast_values window n history) = n.
Proof.
  revert history. induction n as [|n IH]; intros history; simpl; [done|].
  by rewrite IH.
Qed.

Lemma forecast_values_app (window : Z) (n1 n2 : nat) (history : list T) :
  forecast_values window (n1 + n2) history
  = forecast_values window n1 history
    ++ forecast_values window n2 (history ++ forecast_values window n1 history).
Proof.
  revert history. induction n1 as [|n1 IH]; intros history; simpl.
  - by rewrite app_nil_r.
  - rewrite IH. by rewrite <- app_assoc.
Qed.

Lemma forecast_values_lookup (window : Z) (n k : nat) (history : list T) :
  (k < n)%nat →
  forecast_values window n history !! k
  = Some (mean (tail_window window
                  (history ++ take k (forecast_values window n history)))).
Proof.
  revert k history. induction n as [|n IH]; intros k history Hk; [lia|].
  destruct k as [|k]; simpl.
  - by rewrite app_nil_r.
  - rewrite IH by lia. by rewrite <- app_assoc.
Qed.

Lemma slice_tail_nonpositive (window : Z) (history : list T) :
  window <= 0 →
  slice history (Some (- window)) None = drop (Z.to_nat (- window)) history.
Proof.
  intros Hw. unfold slice, clamp_index. simpl.
  destruct (- window <? 0) eqn:E; [lia|].
  rewrite take_ge by (rewrite length_drop; lia).
  destruct (decide (- window <= Z.of_nat (length history))).
  - f_equal. lia.
  - rewrite !drop_ge by lia. done.
Qed.

(** X1.  Forecasting [H1 + H2] steps is forecasting [H1] steps and then
    [H2] more from the history extended with the first forecasts; this
    includes the cases where a division raises. *)
Theorem forecast_split (values : list T) (window h1 h2 : Z) :
  0 <= h1 → 0 <= h2 →
  forecast values window (h1 + h2)
  = (fs1 ← forecast values window h1;
     fs2 ← forecast (values ++ fs1) window h2;
     Ok (fs1 ++ fs2)).
Proof.
  intros H1 H2. rewrite (forecast_closed_form values window h1).
  destruct (h1 <=? 0) eqn:E1.
  - assert (h1 = 0) as -> by lia. rewrite bind_ok, app_nil_r, Z.add_0_l.
    by destruct (forecast values window h2).
  - rewrite forecast_closed_form.
    replace (h1 + h2 <=? 0) with false by lia.
    destruct (tail_window window values) as [|x l] eqn:Hw; [done|].
    rewrite bind_ok, forecast_closed_form.
    destruct (h2 <=? 0) eqn:E2.
    + assert (h2 = 0) as -> by lia. rewrite bind_ok, app_nil_r.
      by rewrite Z.add_0_r.
    + assert (Hne : tail_window window values ≠ []) by (by rewrite Hw).
      apply (tail_window_app_nonempty window values
               (forecast_values window (Z.to_nat h1) values)) in Hne.
      destruct (tail_window window (values ++ _)) as [|y l'] eqn:Hw'; [done|].
      rewrite bind_ok. f_equal.
      rewrite Z2Nat.inj_add by lia. apply forecast_values_app.
Qed.

(** X2.  The forecaster raises exactly when a value is asked for and the
    slice [history[-window:]] of the input is empty, that is when the input
    has at most [max(0, -window)] elements; the exception is the division by
    zero.  In every other case it returns [max(horizon, 0)] values. *)
Theorem forecast_fails_iff (values : list T) (window horizon : Z) :
  (∀ e, forecast values window horizon = Raise e
        ↔ e = ZeroDivisionError ∧ 0 < horizon
          ∧ Z.of_nat (length values) <= Z.max 0 (- window)) ∧
  (¬ (0 < horizon ∧ Z.of_nat (length values) <= Z.max 0 (- window)) →
   ∃ fs : list T,
     forecast values window horizon = Ok fs ∧ length fs = Z.to_nat horizon).
Proof.
  rewrite forecast_closed_form.
  pose proof (tail_window_empty_iff window values) as Hiff.
  destruct (horizon <=? 0) eqn:Hh.
  - split.
    + intros e. split; [done|]. intros (_ & ? & _). lia.
    + intros _. exists []. split; [done|]. simpl. lia.
  - destruct (tail_window window values) as [|x l].
    + split.
      * intros e. split.
        -- intros [= <-]. split; [done|]. split; [lia|]. by apply Hiff.
        -- by intros (-> & _).
      * intros Hn. exfalso. apply Hn. split; [lia|]. by apply Hiff.
    + split.
      * intros e. split; [done|]. intros (_ & _ & Hle).
        by apply Hiff in Hle.
      * intros _. eexists. split; [done|]. apply forecast_values_length.
Qed.

(** X3.  A negative window [-w] is not rejected: when the input has more
    than [w] elements, every forecast is the mean of the working history
    without its first [w] elements. *)
Theorem forecast_negative_window (values : list T) (window horizon : Z) :
  window < 0 → - window < Z.of_nat (length values) →
  ∃ fs : list T,
    forecast values window horizon = Ok fs ∧
    length fs = Z.to_nat horizon ∧
    ∀ k : nat, (k < length fs)%nat →
      fs !! k = Some (mean (drop (Z.to_nat (- window)) (values ++ take k fs))).
Proof.
  intros Hw Hlen. rewrite forecast_closed_form.
  destruct (horizon <=? 0) eqn:Hh.
  - exists []. split; [done|]. split; [simpl; lia|]. simpl. lia.
  - destruct (tail_window window values) as [|x l] eqn:Htw.
    { apply tail_window_empty_iff in Htw. lia. }
    eexists. split; [done|]. split; [apply forecast_values_length|].
    intros k Hk. rewrite forecast_values_length in Hk.
    rewrite forecast_values_lookup by done. unfold tail_window.
    by rewrite slice_tail_nonpositive by lia.
Qed.
End ForecastValues.

Lemma forecast_fails_iff_witness :
  (∀ e, forecast [1; 2]%float (-2) 1 = Raise e
        ↔ e = ZeroDivisionError ∧ 0 < 1
          ∧ Z.of_nat (length [1; 2]%float) <= Z.max 0 (- -2)) ∧
  (¬ (0 < 1 ∧ Z.of_nat (length [1; 2]%float) <= Z.max 0 (- -2)) →
   ∃ fs : list float,
     forecast [1; 2]%float (-2) 1 = Ok fs ∧ length fs = Z.to_nat 1).
Proof. apply (forecast_fails_iff [1; 2]%float (-2) 1). Defined.

Lemma forecast_split_witness :
  forecast [10; 20; 30]%float 2 (1 + 2)
  = (fs1 ← forecast [10; 20; 30]%float 2 1;
     fs2 ← forecast ([10; 20; 30]%float ++ fs1) 2 2;
     Ok (fs1 ++ fs2)).
Proof. apply (forecast_split [10; 20; 30]%float 2 1 2); lia. Defined.

Lemma forecast_negative_window_witness :
  ∃ fs : list float,
    forecast [1; 2; 3]%float (-1) 2 = Ok fs ∧
    length fs = Z.to_nat 2 ∧
    ∀ k : nat, (k < length fs)%nat →
      fs !! k = Some (mean (drop (Z.to_nat (- -1)) ([1; 2; 3]%float ++ take k fs))).
Proof.
  apply (forecast_negative_window [1; 2; 3]%float (-1) 2); simpl; lia.
Defined.

Section SmootherMore.
Context {T : Type} `{Number T}.

Lemma smoothed_at_app (values more : list T) (window : Z) (i : nat) :
  (i < length values)%nat →
  smoothed_at (values ++ more) window i = smoothed_at values window i.
Proof.
  intros Hi. unfold smoothed_at, elements_between.
  set (lo := Z.to_nat (Z.max 0 (Z.of_nat i - window + 1))).
  destruct (decide (lo <= length values)%nat) as [Hlo|Hlo].
  - rewrite drop_app_le by done.
    by rewrite take_app_le by (rewrite length_drop; lia).
  - by replace (S i - lo)%nat with 0%nat by lia.
Qed.

(** X4.  The smoother is causal: appending observations to the input leaves
    the averages already computed as they are. *)
Theorem moving_average_causal (values more : list T) (window : Z) :
  0 < window →
  ∃ out out' : list (option T),
    moving_average values window = Ok out ∧
    moving_average (values ++ more) window = Ok out' ∧
    take (length values) out' = out.
Proof.
  intros Hw. rewrite !moving_average_map by done.
  eexists _, _. split; [done|]. split; [done|].
  rewrite length_app, seq_app, map_app.
  rewrite take_app_length' by (by rewrite length_map, length_seq).
  apply map_ext_in. intros i Hi%in_seq.
  apply smoothed_at_app. lia.
Qed.

(** X5.  A window larger than the input leaves every position undefined:
    the result is as long as the input and holds no average. *)
Theorem moving_average_window_too_large (values : list T) (window : Z) :
  Z.of_nat (length values) < window →
  moving_average values window = Ok (replicate (length values) None).
Proof.
  intros Hw. rewrite moving_average_map by lia. f_equal.
  apply list_eq. intros i.
  destruct (decide (i < length values)%nat) as [Hi|Hi].
  - rewrite list_lookup_fmap, lookup_seq_lt, lookup_replicate_2 by done.
    simpl. f_equal. unfold smoothed_at.
    pose proof (elements_between_length values window i Hi) as Hlen.
    case_decide; [lia|done].
  - rewrite !lookup_ge_None_2; [done| |].
    + rewrite length_replicate. lia.
    + rewrite length_map, length_seq. lia.
Qed.

(** X6.  The forecast starts where the smoother ends: when the input has at
    least [W] elements, the first forecast is the last moving average. *)
Theorem first_forecast_is_last_average (values : list T) (window horizon : Z) :
  0 < window → window <= Z.of_nat (length values) → 0 < horizon →
  ∃ (m : T) (out : list (option T)) (fs : list T),
    moving_average values window = Ok out ∧
    forecast values window horizon = Ok fs ∧
    out !! (length values - 1)%nat = Some (Some m) ∧
    fs !! 0%nat = Some m.
Proof.
  intros Hw Hlen Hh.
  rewrite moving_average_map by done. rewrite forecast_closed_form.
  replace (horizon <=? 0) with false by lia.
  destruct (tail_window window values) as [|x l] eqn:Htw.
  { apply tail_window_empty_iff in Htw. lia. }
  exists (mean (tail_window window values)). eexists _, _.
  split; [done|]. split; [done|]. split.
  - rewrite list_lookup_fmap, lookup_seq_lt by lia. simpl. f_equal.
    unfold smoothed_at.
    pose proof (elements_between_length values window (length values - 1)) as Hl.
    case_decide; [|lia]. do 2 f_equal.
    unfold tail_window. rewrite slice_tail_positive by done.
    unfold elements_between, last_n.
    replace (Z.to_nat (0 `max` _)) with (length values - Z.to_nat window)%nat by lia.
    apply take_ge. rewrite length_drop. lia.
  - rewrite forecast_values_lookup by lia. simpl. by rewrite app_nil_r.
Qed.
End SmootherMore.

Lemma moving_average_causal_witness :
  ∃ out out' : list (option float),
    moving_average [1; 2; 3]%float 2 = Ok out ∧
    moving_average ([1; 2; 3]%float ++ [10; 20]%float) 2 = Ok out' ∧
    take (length [1; 2; 3]%float) out' = out.
Proof. apply (moving_average_causal [1; 2; 3]%float [10; 20]%float 2). lia. Defined.

Lemma moving_average_window_too_large_witness :
  moving_average [1; 2; 3]%float 5 = Ok (replicate (length [1; 2; 3]%float) None).
Proof. apply (moving_average_window_too_large [1; 2; 3]%float 5). simpl. lia. Defined.

Lemma first_forecast_is_last_average_witness :
  ∃ (m : float) (out : list (option float)) (fs : list float),
    moving_average [10; 20; 30]%float 2 = Ok out ∧
    forecast [10; 20; 30]%float 2 3 = Ok fs ∧
    out !! (length [10; 20; 30]%float - 1)%nat = Some (Some m) ∧
    fs !! 0%nat = Some m.
Proof.
  apply (first_forecast_is_last_average [10; 20; 30]%float 2 3); simpl; lia.
Defined.

(** ** The history selection *)

(** X7.  [select_history] returns the last [lookback] points in their
    order, all of them when there are fewer, and none for a lookback that is
    zero or negative. *)
Theorem select_history_suffix {A : Type} (points : list A) (lookback : Z) :
  select_history points lookback = last_n (Z.to_nat lookback) points ∧
  length (select_history points lookback)
  = Z.to_nat (Z.min (Z.max 0 lookback) (Z.of_nat (length points))) ∧
  ∃ before : list A, points = before ++ select_history points lookback.
Proof.
  assert (Heq : select_history points lookback
                = last_n (Z.to_nat lookback) points).
  { unfold select_history. destruct (lookback <=? 0) eqn:E.
    - unfold last_n. replace (Z.to_nat lookback) with 0%nat by lia.
      rewrite Nat.sub_0_r. symmetry. apply drop_all.
    - apply slice_tail_positive. lia. }
  rewrite Heq. split; [done|]. unfold last_n. split.
  - rewrite length_drop. lia.
  - exists (take (length points - Z.to_nat lookback) points).
    symmetry. apply take_drop.
Qed.

(** ** More on the date stepper *)

(** The stepper on a calendar date, in closed form. *)
Lemma add_months_valid (d : dt_date) (months : Z) :
  valid_date d →
  MINYEAR <= year d + (month d - 1 + months) / 12 <= MAXYEAR →
  add_months d months
  = Ok (mk_date (year d + (month d - 1 + months) / 12)
                ((month d - 1 + months) mod 12 + 1)
                (Z.min (day d)
                   (days_in_month (year d + (month d - 1 + months) / 12)
                                  ((month d - 1 + months) mod 12 + 1)))).
Proof.
  intros (_ & _ & Hday) Hyear.
  set (y := year d + (month d - 1 + months) / 12) in *.
  set (m := (month d - 1 + months) mod 12 + 1).
  assert (Hm : 1 <= m <= 12).
  { subst m. pose proof (Z.mod_pos_bound (month d - 1 + months) 12). lia. }
  pose proof (days_in_month_bounds y m Hm) as Hb.
  unfold add_months. fold y m. unfold monthrange_ndays.
  replace ((1 <=? m) && (m <=? 12)) with true by lia.
  rewrite bind_ok. apply new_date_ok. unfold valid_date. simpl. lia.
Qed.

(** What a successful step tells about its result. *)
Lemma add_months_inv (d r : dt_date) (months : Z) :
  valid_date d → add_months d months = Ok r →
  valid_date r ∧
  month_index r = month_index d + months ∧
  day r = Z.min (day d) (days_in_month (year r) (month r)).
Proof.
  intros Hd Hr.
  destruct (decide (MINYEAR <= year d + (month d - 1 + months) / 12 <= MAXYEAR))
    as [Hy|Hy].
  - rewrite add_months_valid in Hr by done. injection Hr as <-.
    destruct Hd as (_ & Hm & Hday).
    pose proof (Z.mod_pos_bound (month d - 1 + months) 12) as Hmod.
    pose proof (days_in_month_bounds
                  (year d + (month d - 1 + months) / 12)
                  ((month d - 1 + months) mod 12 + 1)) as Hb.
    split; [unfold valid_date; simpl; lia|].
    split; [|done]. unfold month_index. simpl.
    pose proof (Z.div_mod (month d - 1 + months) 12). lia.
  - destruct (add_months_out_of_range d months Hy) as [e He]. congruence.
Qed.

Lemma month_index_lt (a b : dt_date) :
  1 <= month a <= 12 → 1 <= month b <= 12 →
  month_index a < month_index b → date_ltb a b = true.
Proof.
  destruct a as [y1 m1 d1], b as [y2 m2 d2].
  unfold month_index, date_ltb. simpl. lia.
Qed.

(** X8.  For a calendar date the stepper succeeds exactly when the target
    year is one of 1..9999. *)
Theorem add_months_succeeds_iff (d : dt_date) (months : Z) :
  valid_date d →
  (∃ r, add_months d months = Ok r)
  ↔ MINYEAR <= year d + (month d - 1 + months) / 12 <= MAXYEAR.
Proof.
  intros Hd. split.
  - intros [r Hr].
    destruct (decide (MINYEAR <= year d + (month d - 1 + months) / 12 <= MAXYEAR))
      as [Hy|Hy]; [done|].
    destruct (add_months_out_of_range d months Hy) as [e He]. congruence.
  - intros Hy. eexists. by apply add_months_valid.
Qed.

(** X9.  Stepping by zero months returns the date itself. *)
Theorem add_months_zero (d : dt_date) :
  valid_date d → add_months d 0 = Ok d.
Proof.
  intros Hd. pose proof Hd as (Hy & Hm & Hday).
  assert (Hdiv : (month d - 1 + 0) / 12 = 0) by (apply Z.div_small; lia).
  assert (Hmod : (month d - 1 + 0) mod 12 = month d - 1).
  { rewrite Z.add_0_r. apply Z.mod_small. lia. }
  rewrite add_months_valid; [|done|rewrite Hdiv; lia].
  rewrite Hdiv, Hmod.
  replace (year d + 0) with (year d) by lia.
  replace (month d - 1 + 1) with (month d) by lia.
  rewrite Z.min_l by lia. by destruct d.
Qed.

(** X10.  The stepper is strictly monotone in the number of months: from one
    calendar date, more months give a later date.  In particular every
    positive number of months gives a date after the starting one. *)
Theorem add_months_strictly_monotone (d r1 r2 : dt_date) (m1 m2 : Z) :
  valid_date d → m1 < m2 →
  add_months d m1 = Ok r1 → add_months d m2 = Ok r2 →
  date_ltb r1 r2 = true ∧ (0 < m2 → date_ltb d r2 = true).
Proof.
  intros Hd Hlt H1 H2.
  destruct (add_months_inv d r1 m1 Hd H1) as ((_ & Hm1 & _) & Hi1 & _).
  destruct (add_months_inv d r2 m2 Hd H2) as ((_ & Hm2 & _) & Hi2 & _).
  split.
  - apply month_index_lt; [done..|lia].
  - intros Hpos. apply month_index_lt; [by destruct Hd as (_ & ? & _)|done|lia].
Qed.

(** X11.  The day of the month never grows, is kept whenever it exists in
    the target month, and is the last day of the target month otherwise;
    a day up to the 28th is always kept. *)
Theorem add_months_day (d r : dt_date) (months : Z) :
  valid_date d → add_months d months = Ok r →
  day r <= day d ∧
  (day d <= days_in_month (year r) (month r) → day r = day d) ∧
  (days_in_month (year r) (month r) < day d
   → day r = days_in_month (year r) (month r)) ∧
  (day d <= 28 → day r = day d).
Proof.
  intros Hd Hr.
  destruct (add_months_inv d r months Hd Hr) as ((_ & Hm & _) & _ & Hday).
  pose proof (days_in_month_bounds (year r) (month r) Hm). lia.
Qed.


(** Without the bound on the day the two differ: the 31st is cut to the end
    of February on the way. *)
Example add_months_compose_clamps :
  (r ← add_months (mk_date 2021 1 31) 1; add_months r 1) = Ok (mk_date 2021 3 28) ∧
  add_months (mk_date 2021 1 31) 2 = Ok (mk_date 2021 3 31).
Proof. split; reflexivity. Qed.

Lemma add_months_succeeds_iff_witness :
  (∃ r, add_months (mk_date 2021 11 30) 3 = Ok r)
  ↔ MINYEAR <= year (mk_date 2021 11 30)
               + (month (mk_date 2021 11 30) - 1 + 3) / 12 <= MAXYEAR.
Proof. apply (add_months_succeeds_iff (mk_date 2021 11 30) 3). by vm_compute. Defined.

Lemma add_months_zero_witness : add_months (mk_date 2020 2 29) 0 = Ok (mk_date 2020 2 29).
Proof. apply (add_months_zero (mk_date 2020 2 29)). by vm_compute. Defined.

Lemma add_months_strictly_monotone_witness :
  date_ltb (mk_date 2021 2 28) (mk_date 2021 3 31) = true ∧
  (0 < 2 → date_ltb (mk_date 2021 1 31) (mk_date 2021 3 31) = true).
Proof.
  apply (add_months_strictly_monotone
           (mk_date 2021 1 31) (mk_date 2021 2 28) (mk_date 2021 3 31) 1 2);
    [by vm_compute|lia|reflexivity|reflexivity].
Defined.

Lemma add_months_day_witness :
  day (mk_date 2021 2 28) <= day (mk_date 2021 1 31) ∧
  (day (mk_date 2021 1 31)
   <= days_in_month (year (mk_date 2021 2 28)) (month (mk_date 2021 2 28))
   → day (mk_date 2021 2 28) = day (mk_date 2021 1 31)) ∧
  (days_in_month (year (mk_date 2021 2 28)) (month (mk_date 2021 2 28))
   < day (mk_date 2021 1 31)
   → day (mk_date 2021 2 28)
     = days_in_month (year (mk_date 2021 2 28)) (month (mk_date 2021 2 28))) ∧
  (day (mk_date 2021 1 31) <= 28
   → day (mk_date 2021 2 28) = day (mk_date 2021 1 31)).
Proof.
  apply (add_months_day (mk_date 2021 1 31) (mk_date 2021 2 28) 1);
    [by vm_compute|reflexivity].
Defined.


(** ** The forecast dates and the demo series *)

Lemma future_dates_map {T : Type} (before : list (SeriesPoint T))
    (p : SeriesPoint T) (horizon : Z) :
  valid_date (date p) →
  year (date p) + (month (date p) - 1 + horizon) / 12 <= MAXYEAR →
  future_dates (before ++ [p]) horizon
  = Ok (map (λ i : nat,
               let t := month (date p) - 1 + (Z.of_nat i + 1) in
               mk_date (year (date p) + t / 12) (t mod 12 + 1)
                 (Z.min (day (date p))
                    (days_in_month (year (date p) + t / 12) (t mod 12 + 1))))
            (seq 0 (Z.to_nat horizon))).
Proof.
  intros Hd Hmax. unfold future_dates.
  match goal with
  | |- _ = Ok (map ?f _) => rewrite (for_each_append f); [done|]
  end.
  intros acc i Hi%elem_of_seq. rewrite index_last, bind_ok.
  rewrite add_months_valid; [done|done|].
  pose proof Hd as (Hy & Hm & _). unfold MINYEAR in *.
  split.
  - assert (0 <= (month (date p) - 1 + (Z.of_nat i + 1)) / 12)
      by (apply Z.div_pos; lia).
    lia.
  - assert ((month (date p) - 1 + (Z.of_nat i + 1)) / 12
            <= (month (date p) - 1 + horizon) / 12)
      by (apply Z.div_le_mono; lia).
    lia.
Qed.

(** X13.  For a series that ends on a calendar date, and a horizon whose
    last month still falls in a year up to 9999, the forecast dates are
    one per step of the horizon, date [i] is the last date of the series
    stepped by [i + 1] months, and they are strictly increasing and all
    after the last date of the series. *)
Theorem future_dates_spec {T : Type} (before : list (SeriesPoint T))
    (p : SeriesPoint T) (horizon : Z) :
  valid_date (date p) →
  year (date p) + (month (date p) - 1 + horizon) / 12 <= MAXYEAR →
  ∃ dates : list dt_date,
    future_dates (before ++ [p]) horizon = Ok dates ∧
    length dates = Z.to_nat horizon ∧
    (∀ (i : nat) (d : dt_date), dates !! i = Some d →
       add_months (date p) (Z.of_nat i + 1) = Ok d ∧ date_ltb (date p) d = true) ∧
    (∀ (i j : nat) (di dj : dt_date), (i < j)%nat →
       dates !! i = Some di → dates !! j = Some dj → date_ltb di dj = true).
Proof.
  intros Hd Hmax. rewrite future_dates_map by done.
  eexists. split; [done|]. split; [by rewrite length_map, length_seq|].
  assert (Hstep : ∀ (i : nat) (d : dt_date),
            map (λ i : nat,
               let t := month (date p) - 1 + (Z.of_nat i + 1) in
               mk_date (year (date p) + t / 12) (t mod 12 + 1)
                 (Z.min (day (date p))
                    (days_in_month (year (date p) + t / 12) (t mod 12 + 1))))
              (seq 0 (Z.to_nat horizon)) !! i = Some d →
            add_months (date p) (Z.of_nat i + 1) = Ok d).
  { intros i d Hi. rewrite list_lookup_fmap in Hi.
    destruct (seq 0 (Z.to_nat horizon) !! i) as [k|] eqn:Hk; [|done].
    apply lookup_seq in Hk as [-> Hlt]. simpl in Hi. injection Hi as <-.
    rewrite add_months_valid; [done|done|].
    pose proof Hd as (Hy & Hm & _). unfold MINYEAR in *.
    assert (0 <= (month (date p) - 1 + (Z.of_nat i + 1)) / 12)
      by (apply Z.div_pos; lia).
    assert ((month (date p) - 1 + (Z.of_nat i + 1)) / 12
            <= (month (date p) - 1 + horizon) / 12)
      by (apply Z.div_le_mono; lia).
    lia. }
  split.
  - intros i d Hi. apply Hstep in Hi. split; [done|].
    destruct (add_months_inv _ _ _ Hd Hi) as ((_ & Hm & _) & Hidx & _).
    apply month_index_lt; [by destruct Hd as (_ & ? & _)|done|lia].
  - intros i j di dj Hij Hi%Hstep Hj%Hstep.
    destruct (add_months_inv _ _ _ Hd Hi) as ((_ & Hmi & _) & Hii & _).
    destruct (add_months_inv _ _ _ Hd Hj) as ((_ & Hmj & _) & Hij' & _).
    apply month_index_lt; [done..|lia].
Qed.

Lemma future_dates_spec_witness :
  ∃ dates : list dt_date,
    future_dates ([] ++ [mk_point (mk_date 2023 12 31) 1%float]) 6 = Ok dates ∧
    length dates = Z.to_nat 6 ∧
    (∀ (i : nat) (d : dt_date), dates !! i = Some d →
       add_months (date (mk_point (mk_date 2023 12 31) 1%float)) (Z.of_nat i + 1)
       = Ok d ∧
       date_ltb (date (mk_point (mk_date 2023 12 31) 1%float)) d = true) ∧
    (∀ (i j : nat) (di dj : dt_date), (i < j)%nat →
       dates !! i = Some di → dates !! j = Some dj → date_ltb di dj = true).
Proof.
  apply (future_dates_spec [] (mk_point (mk_date 2023 12 31) 1%float) 6);
    by vm_compute.
Defined.

Example future_dates_demo :
  future_dates [mk_point (mk_date 2023 12 31) 1%float] 3
  = Ok [mk_date 2024 1 31; mk_date 2024 2 29; mk_date 2024 3 31] ∧
  future_dates ([] : list (SeriesPoint float)) 1 = Raise IndexError ∧
  future_dates ([] : list (SeriesPoint float)) 0 = Ok [].
Proof. repeat split; reflexivity. Qed.

Section DemoSeries.
Variable sin : float → float.
Variable round_ndigits : float → Z → float.

Lemma demo_series_prefix (n : nat) :
  Z.of_nat n <= 95748 →
  for_each (seq 0 n)
    (λ series i,
       d ← add_months (mk_date 2021 1 1) (Z.of_nat i);
       Ok (series ++ [mk_point d (round_ndigits (Cli.demo_value sin (Z.of_nat i)) 2)]))
    []
  = Ok (map (λ i : nat,
               mk_point (mk_date (2021 + Z.of_nat i / 12) (Z.of_nat i mod 12 + 1) 1)
                        (round_ndigits (Cli.demo_value sin (Z.of_nat i)) 2))
            (seq 0 n)).
Proof.
  intros Hn.
  match goal with
  | |- _ = Ok (map ?f _) => rewrite (for_each_append f); [done|]
  end.
  intros acc i Hi%elem_of_seq.
  assert (Hdiv : 2021 + (1 - 1 + Z.of_nat i) / 12 <= 9999).
  { assert ((1 - 1 + Z.of_nat i) / 12 <= 95747 / 12)
      by (apply Z.div_le_mono; lia).
    assert (95747 / 12 = 7978) by reflexivity. lia. }
  assert (0 <= (1 - 1 + Z.of_nat i) / 12) by (apply Z.div_pos; lia).
  rewrite add_months_valid; [|by vm_compute|simpl; unfold MINYEAR, MAXYEAR; lia].
  rewrite bind_ok. simpl.
  replace (1 - 1 + Z.of_nat i) with (Z.of_nat i) by lia.
  pose proof (Z.mod_pos_bound (Z.of_nat i) 12) as Hmod.
  pose proof (days_in_month_bounds (2021 + Z.of_nat i / 12)
                (Z.of_nat i mod 12 + 1)) as Hb.
  by rewrite Z.min_l by lia.
Qed.

(** X14.  The demo series of a length up to 95748 has that many points (none
    for a negative length); point [i] is dated the first day of the month
    [i] months after January 2021 and carries the rounded value of the
    formula.  A longer series cannot be generated: the date of point 95748
    would fall in the year 10000 and the date constructor raises. *)
Theorem generate_demo_series_spec (length : Z) :
  (length <= 95748 →
   Cli.generate_demo_series sin round_ndigits length
   = Ok (map (λ i : nat,
                mk_point (mk_date (2021 + Z.of_nat i / 12) (Z.of_nat i mod 12 + 1) 1)
                         (round_ndigits (Cli.demo_value sin (Z.of_nat i)) 2))
             (seq 0 (Z.to_nat length)))) ∧
  (95748 < length →
   Cli.generate_demo_series sin round_ndigits length = Raise ValueError).
Proof.
  unfold Cli.generate_demo_series.
  change (new_date 2021 1 1) with (Ok (mk_date 2021 1 1)). rewrite bind_ok.
  split; intros Hlen.
  - apply demo_series_prefix. lia.
  - replace (Z.to_nat length)
      with (Z.to_nat 95748 + S (Z.to_nat (length - 95749)))%nat by lia.
    rewrite seq_app, for_each_app, demo_series_prefix by lia.
    rewrite bind_ok, <- cons_seq. cbn [for_each].
    replace (Z.of_nat (0 + Z.to_nat 95748)) with 95748 by lia.
    by assert (add_months (mk_date 2021 1 1) 95748 = Raise ValueError) as ->
      by (by vm_compute).
Qed.
End DemoSeries.

Lemma generate_demo_series_spec_witness :
  Cli.generate_demo_series (λ x, x) (λ x _, x) 36
  = Ok (map (λ i : nat,
               mk_point (mk_date (2021 + Z.of_nat i / 12) (Z.of_nat i mod 12 + 1) 1)
                        (Cli.demo_value (λ x, x) (Z.of_nat i)))
            (seq 0 (Z.to_nat 36))).
Proof.
  apply (proj1 (generate_demo_series_spec (λ x, x) (λ x _, x) 36)). lia.
Defined.

(** ** More on the sparkline *)

Lemma string_of_list_length (l : list ascii) :
  String.length (string_of_list_ascii l) = length l.
Proof. induction l as [|c l IH]; simpl; [done|]. by rewrite IH. Qed.

Lemma string_of_list_get (l : list ascii) (i : nat) :
  String.get i (string_of_list_ascii l) = l !! i.
Proof.
  revert i. induction l as [|c l IH]; intros [|i]; simpl; auto.
Qed.

Lemma list_of_string_length (s : string) :
  length (list_ascii_of_string s) = String.length s.
Proof. induction s as [|c s IH]; simpl; [done|]. by rewrite IH. Qed.

Lemma list_of_string_app (a b : string) :
  list_ascii_of_string (a +:+ b)
  = list_ascii_of_string a ++ list_ascii_of_string b.
Proof.
  induction a as [|c a IH]; [done|].
  change (String c a +:+ b) with (String c (a +:+ b)). simpl. by rewrite IH.
Qed.

Lemma list_of_str_mul (c : ascii) (n : nat) :
  list_ascii_of_string (str_mul (String c "") n) = replicate n c.
Proof.
  induction n as [|n IH]; [done|]. rewrite str_mul_succ. simpl. by rewrite IH.
Qed.

Lemma for_each_grows {A B : Type} (xs : list A)
    (body : list B → A → result (list B)) :
  (∀ acc x r, body acc x = Ok r → length r = S (length acc)) →
  ∀ acc r, for_each xs body acc = Ok r →
    length r = (length acc + length xs)%nat.
Proof.
  intros Hbody. induction xs as [|x xs IH]; intros acc r; simpl.
  - intros [= <-]. lia.
  - destruct (body acc x) as [acc'|e] eqn:Hb; simpl; [|done].
    intros Hr%IH. apply Hbody in Hb. lia.
Qed.

Lemma index_in_range {A : Type} (l : list A) (i : Z) :
  0 <= i < Z.of_nat (length l) →
  ∃ x, index l i = Ok x ∧ l !! Z.to_nat i = Some x.
Proof.
  intros Hi. unfold index.
  destruct (i <? 0) eqn:E; [lia|]. rewrite E.
  destruct (lookup_lt_is_Some_2 l (Z.to_nat i)) as [x Hx]; [lia|].
  exists x. by rewrite Hx.
Qed.

Section SparklineLength.
Context {T : Type} `{Number T}.

Lemma sparkline_body_grows (v_min span : T) (scale : Z) (chars : list ascii)
    (value : T) (r : list ascii) :
  sparkline_body v_min span scale chars value = Ok r →
  length r = S (length chars).
Proof.
  unfold sparkline_body.
  destruct (truediv _ _) as [q|]; simpl; [|done].
  destruct (num_round _) as [n|]; simpl; [|done].
  destruct (index _ _) as [c|]; simpl; [|done].
  intros [= <-]. rewrite length_app. simpl. lia.
Qed.

Lemma sparkline_has_length (values : list T) (s : string) :
  sparkline values = Ok s → String.length s = length values.
Proof.
  unfold sparkline. destruct values as [|x xs]; [by intros [= <-]|].
  cbn [py_min py_max]. rewrite !bind_ok.
  destruct (num_eqb _ _).
  - intros [= <-]. apply (str_mul_length "=" (S (length xs))).
  - destruct (for_each _ _ _) as [chars|] eqn:Hrun; [rewrite bind_ok|done].
    intros [= <-]. rewrite string_of_list_length.
    apply for_each_grows in Hrun; [done|].
    intros acc v r. apply sparkline_body_grows.
Qed.

(** X15.  Whenever the sparkline is returned it has exactly one character
    per value. *)
Theorem sparkline_length (values : list T) (s : string) :
  sparkline values = Ok s → String.length s = length values.
Proof.
  intros Hs. unfold sparkline in Hs. destruct values as [|x xs].
  - by injection Hs as <-.
  - cbn [py_min py_max] in Hs. rewrite !bind_ok in Hs.
    destruct (num_eqb _ _).
    + injection Hs as <-. apply (str_mul_length "=" (S (length xs))).
    + destruct (for_each _ _ _) as [chars|] eqn:Hrun; [|done].
      rewrite bind_ok in Hs. injection Hs as <-.
      rewrite string_of_list_length.
      apply for_each_grows in Hrun; [exact Hrun|].
      intros acc v r. apply sparkline_body_grows.
Qed.
End SparklineLength.

Lemma sparkline_length_witness :
  String.length " .:@" = length [1; 2; 3; 10]%float.
Proof. apply (sparkline_length [1; 2; 3; 10]%float " .:@"). by vm_compute. Defined.

(** The sparkline on exact rationals. *)

Lemma round_half_even_bounds (n lo hi : Z) (d : positive) :
  lo * Z.pos d <= n <= hi * Z.pos d →
  lo <= round_half_even n (Z.pos d) <= hi.
Proof.
  intros [Hlo Hhi]. unfold round_half_even.
  pose proof (Z.div_mod n (Z.pos d)) as Hdm.
  pose proof (Z.mod_pos_bound n (Z.pos d)) as Hmod.
  set (q := n / Z.pos d) in *. set (r := n mod Z.pos d) in *.
  assert (Hq1 : lo <= q) by nia.
  assert (Hq2 : q <= hi) by nia.
  assert (Hedge : q = hi → r = 0) by nia.
  destruct (2 * r ?= Z.pos d) eqn:E.
  - apply Z.compare_eq in E. destruct (Z.even q); lia.
  - lia.
  - apply Z.compare_gt_iff in E. lia.
Qed.

Lemma rational_min_spec (xs : list Q) (x : Q) :
  let m := fold_left (λ cur item : Q, if num_ltb item cur then item else cur) xs x in
  (m <= x)%Q ∧ Forall (λ y, m <= y)%Q xs ∧ m ∈ x :: xs.
Proof.
  revert x. induction xs as [|y xs IH]; intros x; cbn [fold_left].
  - split; [apply Qle_refl|]. split; [constructor|left].
  - change (num_ltb y x) with (negb (Qle_bool x y)).
    destruct (Qle_bool x y) eqn:E; cbn [negb].
    + destruct (IH x) as (H1 & H2 & H3).
      apply Qle_bool_iff in E. split; [done|]. split.
      * constructor; [by eapply Qle_trans|done].
      * apply elem_of_cons in H3 as [Heq|?]; [rewrite Heq; left|by do 2 right].
    + destruct (IH y) as (H1 & H2 & H3).
      assert (y <= x)%Q.
      { apply Qlt_le_weak, Qnot_le_lt. intros Hle.
        apply Qle_bool_iff in Hle. congruence. }
      split; [by eapply Qle_trans|]. split.
      * by constructor.
      * by right.
Qed.

Lemma rational_max_spec (xs : list Q) (x : Q) :
  let m := fold_left (λ cur item : Q, if num_ltb cur item then item else cur) xs x in
  (x <= m)%Q ∧ Forall (λ y, y <= m)%Q xs ∧ m ∈ x :: xs.
Proof.
  revert x. induction xs as [|y xs IH]; intros x; cbn [fold_left].
  - split; [apply Qle_refl|]. split; [constructor|left].
  - change (num_ltb x y) with (negb (Qle_bool y x)).
    destruct (Qle_bool y x) eqn:E; cbn [negb].
    + destruct (IH x) as (H1 & H2 & H3).
      apply Qle_bool_iff in E. split; [done|]. split.
      * constructor; [by eapply Qle_trans|done].
      * apply elem_of_cons in H3 as [Heq|?]; [rewrite Heq; left|by do 2 right].
    + destruct (IH y) as (H1 & H2 & H3).
      assert (x <= y)%Q.
      { apply Qlt_le_weak, Qnot_le_lt. intros Hle.
        apply Qle_bool_iff in Hle. congruence. }
      split; [by eapply Qle_trans|]. split.
      * by constructor.
      * by right.
Qed.

Lemma ramp_position_bounds (lo hi x : Q) :
  (lo < hi)%Q → (lo <= x)%Q → (x <= hi)%Q →
  0 <= ramp_position lo hi x <= 9.
Proof.
  intros Hlt Hlo Hhi. unfold ramp_position.
  set (s := Qred (Qred (Qred (x - lo) / Qred (hi - lo)) * inject_Z 9)).
  assert (Hspan : (0 < hi - lo)%Q) by (by apply Qlt_minus_iff in Hlt).
  assert (Hs : (s == (x - lo) / (hi - lo) * inject_Z 9)%Q).
  { subst s. by rewrite !Qred_correct. }
  assert (H0 : (0 <= s)%Q).
  { rewrite Hs. apply Qmult_le_0_compat; [|by vm_compute].
    apply Qle_shift_div_l; [done|]. rewrite Qmult_0_l.
    by apply Qle_minus_iff in Hlo. }
  assert (H9 : (s <= 9)%Q).
  { rewrite Hs. apply Qle_trans with (1 * inject_Z 9)%Q; [|by vm_compute].
    apply Qmult_le_compat_r; [|by vm_compute].
    apply Qle_shift_div_r; [done|]. rewrite Qmult_1_l.
    unfold Qminus. by apply Qplus_le_l. }
  apply round_half_even_bounds.
  unfold Qle in H0, H9. simpl in H0, H9. lia.
Qed.

Lemma sparkline_body_rational (lo hi x : Q) (chars : list ascii) :
  (lo < hi)%Q → (lo <= x)%Q → (x <= hi)%Q →
  sparkline_body lo (num_sub hi lo)
    (Z.of_nat (String.length SPARK_CHARS) - 1) chars x
  = Ok (chars ++ [nth (Z.to_nat (ramp_position lo hi x)) ramp " "%char]).
Proof.
  intros Hlt Hlo Hhi. unfold sparkline_body, truediv.
  assert (Hspan : num_eqb (num_sub hi lo) (num_of_Z 0) = false).
  { apply not_true_is_false. intros Heq%Qeq_bool_iff.
    change (num_sub hi lo) with (Qred (hi - lo)) in Heq.
    rewrite Qred_correct in Heq.
    apply Qlt_minus_iff in Hlt. unfold Qminus in Heq.
    rewrite Heq in Hlt. by apply Qlt_irrefl in Hlt. }
  rewrite Hspan, bind_ok.
  assert (Hround :
    num_round (num_mul (num_div (num_sub x lo) (num_sub hi lo))
                 (num_of_Z (Z.of_nat (String.length SPARK_CHARS) - 1)))
    = Ok (ramp_position lo hi x)) by reflexivity.
  rewrite Hround, bind_ok.
  pose proof (ramp_position_bounds lo hi x Hlt Hlo Hhi) as Hb.
  change (list_ascii_of_string SPARK_CHARS) with ramp.
  destruct (index_in_range ramp (ramp_position lo hi x)) as (c & Hc & Hl).
  { change (length ramp) with 10%nat. lia. }
  rewrite Hc, bind_ok. do 3 f_equal.
  symmetry. by apply nth_lookup_Some.
Qed.

(** The sparkline of a sequence of rationals, in closed form. *)
Lemma sparkline_rational (x : Q) (xs : list Q) :
  ∃ lo hi : Q,
    py_min (x :: xs) = Ok lo ∧ py_max (x :: xs) = Ok hi ∧
    (lo <= hi)%Q ∧ Forall (λ y, lo <= y ∧ y <= hi)%Q (x :: xs) ∧
    sparkline (x :: xs)
    = if Qeq_bool lo hi then Ok (str_mul "=" (length (x :: xs)))
      else Ok (string_of_list_ascii
                 (map (λ y, nth (Z.to_nat (ramp_position lo hi y)) ramp " "%char)
                      (x :: xs))).
Proof.
  destruct (rational_min_spec xs x) as (Hm1 & Hm2 & Hm3).
  destruct (rational_max_spec xs x) as (HM1 & HM2 & HM3).
  set (lo := fold_left (λ cur item : Q, if num_ltb item cur then item else cur)
               xs x) in *.
  set (hi := fold_left (λ cur item : Q, if num_ltb cur item then item else cur)
               xs x) in *.
  exists lo, hi. split; [done|]. split; [done|].
  assert (Hall : Forall (λ y, lo <= y ∧ y <= hi)%Q (x :: xs)).
  { constructor; [done|]. rewrite Forall_forall in Hm2, HM2.
    apply Forall_forall. intros y Hy. split; [by apply Hm2|by apply HM2]. }
  split; [by eapply Qle_trans|]. split; [done|].
  unfold sparkline. cbn [py_min py_max]. rewrite !bind_ok. fold lo hi.
  change (num_eqb lo hi) with (Qeq_bool lo hi).
  destruct (Qeq_bool lo hi) eqn:E; [done|].
  assert (Hlt : (lo < hi)%Q).
  { apply Qle_lt_or_eq in Hm1 as Hcase. apply Qnot_le_lt. intros Hle.
    assert (lo == hi)%Q by (apply Qle_antisym; [by eapply Qle_trans|done]).
    apply Qeq_bool_iff in H. congruence. }
  match goal with
  | |- context [for_each ?l ?b []] =>
      rewrite (for_each_append
                 (λ y, nth (Z.to_nat (ramp_position lo hi y)) ramp " "%char) l b [])
  end; [done|].
  intros acc y Hy. rewrite Forall_forall in Hall.
  destruct (Hall y Hy) as [Hy1 Hy2]. by apply sparkline_body_rational.
Qed.

(** X16.  On exact rationals the sparkline never raises: every sequence gets
    a string with one character per value, all of them characters of the
    ramp. *)
Theorem sparkline_rational_total (values : list Q) :
  ∃ s : string,
    sparkline values = Ok s ∧
    String.length s = length values ∧
    ∀ c : ascii, c ∈ list_ascii_of_string s → c ∈ ramp.
Proof.
  destruct values as [|x xs].
  { exists "". split; [done|]. split; [done|]. by intros c ?%elem_of_nil. }
  destruct (sparkline_rational x xs) as (lo & hi & _ & _ & Hle & Hall & ->).
  destruct (Qeq_bool lo hi) eqn:E.
  - eexists. split; [done|]. split; [apply (str_mul_length "=")|].
    intros c. rewrite (list_of_str_mul "=").
    intros [-> _]%elem_of_replicate. unfold ramp. simpl. set_solver.
  - eexists. split; [done|].
    split; [by rewrite string_of_list_length, length_map|].
    intros c. rewrite list_ascii_of_string_of_list_ascii.
    intros (y & -> & Hy)%list_elem_of_fmap.
    assert (Hlt : (lo < hi)%Q).
    { apply Qnot_le_lt. intros Hge.
      assert (lo == hi)%Q by (by apply Qle_antisym).
      apply Qeq_bool_iff in H. congruence. }
    rewrite Forall_forall in Hall. destruct (Hall y Hy) as [Hy1 Hy2].
    pose proof (ramp_position_bounds lo hi y Hlt Hy1 Hy2) as Hb.
    apply list_elem_of_In, nth_In. change (length ramp) with 10%nat. lia.
Qed.

(** X17.  On exact rationals that are not all equal, each smallest value is
    drawn with the first character of the ramp, the blank, and each largest
    value with the last one. *)
Theorem sparkline_rational_extremes (values : list Q) (lo hi : Q) (s : string) :
  py_min values = Ok lo → py_max values = Ok hi → ¬ (lo == hi)%Q →
  sparkline values = Ok s →
  ∀ (i : nat) (x : Q), values !! i = Some x →
    ((x == lo)%Q → String.get i s = Some " "%char) ∧
    ((x == hi)%Q → String.get i s = Some "@"%char).
Proof.
  intros Hmin Hmax Hne Hs. destruct values as [|v vs]; [done|].
  destruct (sparkline_rational v vs) as (lo' & hi' & Hlo & Hhi & _ & _ & Heq).
  rewrite Hmin in Hlo. rewrite Hmax in Hhi.
  injection Hlo as <-. injection Hhi as <-.
  rewrite Hs in Heq.
  destruct (Qeq_bool lo hi) eqn:E; [by apply Qeq_bool_iff in E|].
  set (chars := map _ (v :: vs)) in Heq.
  assert (s = string_of_list_ascii chars) as -> by congruence.
  intros i x Hx.
  rewrite string_of_list_get. subst chars. rewrite list_lookup_fmap, Hx.
  cbn [fmap option_fmap option_map].
  assert (Hspan : ¬ (hi - lo == 0)%Q).
  { intros H0. apply Hne. symmetry.
    apply Qplus_inj_r with (z := (- lo)%Q).
    rewrite Qplus_opp_r. exact H0. }
  split; intros Hxe.
  - assert (ramp_position lo hi x = 0) as ->; [|done].
    unfold ramp_position.
    assert (Qred (x - lo) = 0%Q) as ->.
    { change 0%Q with (Qred 0). apply Qred_complete.
      rewrite Hxe. apply Qplus_opp_r. }
    assert (Qred (0 / Qred (hi - lo)) = 0%Q) as ->.
    { change 0%Q with (Qred 0) at 2. apply Qred_complete.
      unfold Qdiv. apply Qmult_0_l. }
    done.
  - assert (ramp_position lo hi x = 9) as ->; [|done].
    unfold ramp_position.
    assert (Qred (Qred (x - lo) / Qred (hi - lo)) = 1%Q) as ->.
    { change 1%Q with (Qred 1). apply Qred_complete.
      rewrite !Qred_correct, Hxe. apply Qmult_inv_r. exact Hspan. }
    done.
Qed.

Lemma sparkline_rational_extremes_witness :
  ((1 == 1)%Q → String.get 1 "= : @"%string = Some " "%char) ∧
  ((1 == 5)%Q → String.get 1 "= : @"%string = Some "@"%char).
Proof.
  apply (sparkline_rational_extremes [3; 1; 2; 1; 5]%Q 1 5 "= : @");
    by vm_compute.
Defined.

(** ** The printed chart and tables *)

Lemma slice_prefix {A : Type} (l : list A) (n : Z) :
  0 <= n → slice l None (Some n) = take (Z.to_nat n) l.
Proof.
  intros Hn. unfold slice, clamp_index. simpl.
  destruct (n <? 0) eqn:E; [lia|]. rewrite Z.sub_0_r.
  change (Z.to_nat 0) with 0%nat. rewrite drop_0.
  destruct (decide (n <= Z.of_nat (length l))).
  - f_equal. lia.
  - rewrite !take_ge by lia. done.
Qed.

Lemma slice_suffix {A : Type} (l : list A) (n : Z) :
  0 <= n → slice l (Some n) None = drop (Z.to_nat n) l.
Proof.
  intros Hn. unfold slice, clamp_index. simpl.
  destruct (n <? 0) eqn:E; [lia|].
  rewrite take_ge by (rewrite length_drop; lia).
  destruct (decide (n <= Z.of_nat (length l))).
  - f_equal. lia.
  - rewrite !drop_ge by lia. done.
Qed.

Lemma select_history_last_n {A : Type} (points : list A) (lookback : Z) :
  select_history points lookback = last_n (Z.to_nat lookback) points.
Proof.
  unfold select_history. destruct (lookback <=? 0) eqn:E.
  - unfold last_n. replace (Z.to_nat lookback) with 0%nat by lia.
    rewrite Nat.sub_0_r. symmetry. apply drop_all.
  - apply slice_tail_positive. lia.
Qed.

Section PrintingFacts.
Context {T : Type} `{Number T}.
Variable isoformat : dt_date → string.
Variable format_float : string → T → string.

(** X18.  The chart line is the sparkline of the history followed by the
    forecasts, cut after the history by one bar: it is one character longer
    than the two sequences together and the bar stands at the position of
    the first forecast.  Without history nothing is printed, forecasts or
    not. *)
Theorem print_ascii_chart_spec (actuals forecasts : list T) (spark : string) :
  sparkline (actuals ++ forecasts) = Ok spark →
  print_ascii_chart [] forecasts = Ok [] ∧
  (actuals ≠ [] →
   ∃ line : string,
     print_ascii_chart actuals forecasts
     = Ok [NL +:+ "ASCII sparkline (| separates history/prediction)"; line] ∧
     list_ascii_of_string line
     = take (length actuals) (list_ascii_of_string spark)
       ++ "|"%char :: drop (length actuals) (list_ascii_of_string spark) ∧
     String.length line = (length actuals + length forecasts + 1)%nat ∧
     String.get (length actuals) line = Some "|"%char).
Proof.
  intros Hspark. split; [done|]. intros Hne.
  pose proof (sparkline_has_length _ _ Hspark) as Hlen.
  rewrite length_app, <- list_of_string_length in Hlen.
  unfold print_ascii_chart. destruct actuals as [|a actuals']; [done|].
  rewrite Hspark, bind_ok. eexists. split; [done|].
  set (n := length (a :: actuals')) in *.
  set (chars := list_ascii_of_string spark) in *.
  clearbody n.
  assert (Hline :
    list_ascii_of_string
      (str_slice spark None (Some (Z.of_nat n)) +:+ "|"
       +:+ str_slice spark (Some (Z.of_nat n)) None)
    = take n chars ++ "|"%char :: drop n chars).
  { rewrite !list_of_string_app. unfold str_slice.
    rewrite !list_ascii_of_string_of_list_ascii.
    rewrite slice_prefix, slice_suffix by lia.
    by rewrite Nat2Z.id. }
  clearbody chars.
  split; [exact Hline|]. split.
  - rewrite <- list_of_string_length, Hline.
    rewrite length_app, length_take, length_cons, length_drop. lia.
  - rewrite <- (string_of_list_ascii_of_string (_ +:+ _)), Hline.
    rewrite string_of_list_get.
    rewrite lookup_app_r by (rewrite length_take; lia).
    rewrite length_take.
    by replace (n - n `min` length chars)%nat with 0%nat by lia.
Qed.

(** X19.  The history table pairs every selected point with the moving
    average of its own position in the series: after the three title lines,
    line [j] shows point [N - k + j] of the series and the average (or the
    placeholder) computed for that position, where [k] is the number of
    selected points. *)
Theorem history_table_aligned (series : list (SeriesPoint T))
    (window lookback : Z) (smoothed : list (option T)) :
  0 < window →
  moving_average (map value series) window = Ok smoothed →
  let points := select_history series lookback in
  let first := (length series - length points)%nat in
  let table := print_history_table isoformat format_float points smoothed in
  length table = (3 + length points)%nat ∧
  ∀ (j : nat) (p : SeriesPoint T), points !! j = Some p →
    series !! (first + j)%nat = Some p ∧
    table !! (3 + j)%nat
    = Some (isoformat (date p) +:+ "  "
            +:+ format_float "7.2f" (value p) +:+ "  "
            +:+ match smoothed_at (map value series) window (first + j) with
                | Some m => format_float "8.2f" m
                | None => "    --  "
                end).
Proof.
  intros Hw Hma points first table.
  rewrite moving_average_map in Hma by done.
  injection Hma as Hma. subst smoothed.
  set (sm := map (smoothed_at (map value series) window)
               (seq 0 (length (map value series)))) in *.
  assert (Hsm : length sm = length series).
  { subst sm. by rewrite length_map, length_seq, length_map. }
  assert (Hpts : points = drop first series).
  { subst points first. rewrite select_history_last_n. unfold last_n.
    rewrite length_drop. f_equal.
    destruct (decide (Z.to_nat lookback <= length series)%nat); lia. }
  assert (Hk : (length points <= length series)%nat).
  { rewrite Hpts, length_drop. lia. }
  assert (Hrows : points = [] ∨
            slice sm (Some (- Z.of_nat (length points))) None = drop first sm).
  { destruct points as [|p0 pts] eqn:Hp; [by left|right].
    rewrite slice_tail_positive by (simpl; lia). unfold last_n.
    f_equal. subst first. rewrite Hsm, Nat2Z.id. done. }
  subst table. unfold print_history_table. split.
  - rewrite length_app, length_map. simpl. f_equal.
    destruct Hrows as [-> | ->]; [done|].
    rewrite length_zip_with_l_eq; [done|].
    rewrite Hpts, !length_drop. lia.
  - intros j p Hj. split.
    + by rewrite Hpts, lookup_drop in Hj.
    + destruct Hrows as [Hnil|Hrows]; [by rewrite Hnil in Hj|].
      rewrite Hrows.
      rewrite lookup_app_r by (simpl; lia).
      replace (3 + j - length [NL +:+ "Recent history";
                               "Date        Actual    MA";
                               "----------------------------"])%nat
        with j by (simpl; lia).
      rewrite list_lookup_fmap, lookup_zip_with, Hj. simpl.
      rewrite lookup_drop. subst sm.
      rewrite list_lookup_fmap, lookup_seq_lt.
      2:{ rewrite length_map. apply lookup_lt_Some in Hj.
          rewrite Hpts, length_drop in Hj. lia. }
      done.
Qed.
End PrintingFacts.

Lemma print_ascii_chart_spec_witness :
  print_ascii_chart [] [4; 8]%Q = Ok [] ∧
  ([1; 3; 2]%Q ≠ [] →
   ∃ line : string,
     print_ascii_chart [1; 3; 2]%Q [4; 8]%Q
     = Ok [NL +:+ "ASCII sparkline (| separates history/prediction)"; line] ∧
     list_ascii_of_string line
     = take (length [1; 3; 2]%Q) (list_ascii_of_string " -.=@")
       ++ "|"%char :: drop (length [1; 3; 2]%Q) (list_ascii_of_string " -.=@") ∧
     String.length line = (length [1; 3; 2]%Q + length [4; 8]%Q + 1)%nat ∧
     String.get (length [1; 3; 2]%Q) line = Some "|"%char).
Proof.
  apply (print_ascii_chart_spec [1; 3; 2]%Q [4; 8]%Q " -.=@"). by vm_compute.
Defined.

Lemma history_table_aligned_witness :
  let series := [mk_point (mk_date 2021 1 1) 1; mk_point (mk_date 2021 2 1) 3;
                 mk_point (mk_date 2021 3 1) 5]%Q in
  let points := select_history series 2 in
  let first := (length series - length points)%nat in
  let table := print_history_table (λ _, "date") (λ _ _, "value") points
                 [None; Some 2; Some 4]%Q in
  length table = (3 + length points)%nat ∧
  ∀ (j : nat) (p : SeriesPoint Q), points !! j = Some p →
    series !! (first + j)%nat = Some p ∧
    table !! (3 + j)%nat
    = Some ((λ _, "date") (date p) +:+ "  "
            +:+ (λ _ _, "value") "7.2f" (value p) +:+ "  "
            +:+ match smoothed_at (map value series) 2 (first + j) with
                | Some m => (λ _ _, "value") "8.2f" m
                | None => "    --  "
                end).
Proof.
  apply (history_table_aligned (λ _, "date") (λ _ _, "value")
           [mk_point (mk_date 2021 1 1) 1; mk_point (mk_date 2021 2 1) 3;
            mk_point (mk_date 2021 3 1) 5]%Q 2 2 [None; Some 2; Some 4]%Q);
    [lia|by vm_compute].
Defined.

(** ** More on the CSV readers *)

Lemma date_ltb_irrefl (a : dt_date) : date_ltb a a = false.
Proof. destruct a. unfold date_ltb. simpl. lia. Qed.

Lemma existsb_perm {A : Type} (f : A → bool) (l l' : list A) :
  l ≡ₚ l' → existsb f l = existsb f l'.
Proof.
  induction 1 as [|x l l' _ IH|x y l|l l' l'' _ IH1 _ IH2]; simpl.
  - done.
  - by rewrite IH.
  - by destruct (f x), (f y).
  - by rewrite IH1.
Qed.

Section StableSort.
Context {T : Type}.
Implicit Types (p : SeriesPoint T) (l : list (SeriesPoint T)).

Lemma insert_by_key_same_date (d : dt_date) p l :
  filter (λ q, date q = d) (insert_by_key date_ltb date p l)
  = filter (λ q, date q = d) (p :: l).
Proof.
  induction l as [|q l IH]; simpl; [done|].
  destruct (date_ltb (date q) (date p)) eqn:E; [|done].
  rewrite !filter_cons. rewrite filter_cons in IH.
  destruct (decide (date q = d)) as [Hq|Hq];
    destruct (decide (date p = d)) as [Hp|Hp]; rewrite IH; try done.
  rewrite Hq, Hp, date_ltb_irrefl in E. done.
Qed.

Lemma sort_by_key_same_date (d : dt_date) l :
  filter (λ q, date q = d) (sort_by_key date_ltb date l)
  = filter (λ q, date q = d) l.
Proof.
  induction l as [|p l IH]; simpl; [done|].
  rewrite insert_by_key_same_date, !filter_cons, IH. done.
Qed.
End StableSort.

Section ReaderMore.
Context {T : Type}.
Variable strip : string → string.
Variable fromisoformat : string → option dt_date.
Variable parse_float : string → option T.

Local Abbreviation malformed := (malformed strip fromisoformat parse_float).
Local Abbreviation surviving_points :=
  (surviving_points strip fromisoformat parse_float).
Local Abbreviation load_series_from_csv :=
  (load_series_from_csv strip fromisoformat parse_float).
Local Abbreviation parse_uploaded_csv :=
  (parse_uploaded_csv strip fromisoformat parse_float).

Lemma rows_result_perm (rows rows' : list row) :
  rows ≡ₚ rows' →
  NoDup (map date (surviving_points rows)) →
  (if existsb malformed rows' then Raise ValueError
   else sorted_or_error (surviving_points rows'))
  = (if existsb malformed rows then Raise ValueError
     else sorted_or_error (surviving_points rows)).
Proof.
  intros Hperm Hnd. rewrite (existsb_perm _ _ _ Hperm).
  destruct (existsb _ _); [done|]. unfold sorted_or_error.
  rewrite (sort_by_key_perm_eq (surviving_points rows) (surviving_points rows'));
    [done|done|].
  unfold surviving_points.
  by rewrite Hperm.
Qed.

(** X20.  The file reader and the upload reader agree: a file and an upload
    (an object with [getvalue] or raw bytes) that hold the same rows give
    the same series or the same exception. *)
Theorem load_and_upload_agree (fs : filesystem) (path : string) (rows : list row) :
  fs !! path = Some rows →
  parse_uploaded_csv (RawBytes rows) = load_series_from_csv fs path ∧
  parse_uploaded_csv (UploadedFile rows) = load_series_from_csv fs path.
Proof.
  intros Hfile.
  rewrite (load_series_from_csv_rows _ _ _ fs path rows Hfile).
  split; apply parse_uploaded_csv_rows; [by right|by left].
Qed.

(** X21.  With pairwise different dates the result does not depend on the
    order of the rows at all: any rearrangement of the rows of a file gives
    the same series or the same exception. *)
Theorem load_order_irrelevant (rows rows' : list row) (path : string) :
  rows ≡ₚ rows' →
  NoDup (map date (surviving_points rows)) →
  load_series_from_csv {[path := rows']} path
  = load_series_from_csv {[path := rows]} path.
Proof.
  intros Hperm Hnd.
  rewrite (load_series_from_csv_rows _ _ _ _ path rows') by apply lookup_singleton_eq.
  rewrite (load_series_from_csv_rows _ _ _ _ path rows) by apply lookup_singleton_eq.
  by apply rows_result_perm.
Qed.

Lemma surviving_points_cons (r : row) (rows : list row) :
  surviving_points (r :: rows)
  = match (if skipped r then None
           else point_of_row strip fromisoformat parse_float r) with
    | Some p => p :: surviving_points rows
    | None => surviving_points rows
    end.
Proof. reflexivity. Qed.

Lemma existsb_malformed_kept (rows : list row) :
  existsb malformed (filter (λ r, skipped r = false) rows)
  = existsb malformed rows.
Proof.
  induction rows as [|r rows IH]; [done|].
  rewrite filter_cons. destruct (decide (skipped r = false)) as [Hs|Hs].
  - cbn [existsb]. by rewrite IH.
  - cbn [existsb]. rewrite IH. unfold malformed at 2.
    by destruct (skipped r).
Qed.

Lemma surviving_points_kept (rows : list row) :
  surviving_points (filter (λ r, skipped r = false) rows)
  = surviving_points rows.
Proof.
  induction rows as [|r rows IH]; [done|].
  rewrite filter_cons. destruct (decide (skipped r = false)) as [Hs|Hs].
  - by rewrite !surviving_points_cons, IH.
  - rewrite surviving_points_cons, IH. by destruct (skipped r).
Qed.

(** X22.  Rows with a missing or empty field leave no trace: deleting them
    from the file changes nothing in the result. *)
Theorem load_ignores_skipped_rows (rows : list row) (path : string) :
  load_series_from_csv {[path := filter (λ r, skipped r = false) rows]} path
  = load_series_from_csv {[path := rows]} path.
Proof.
  rewrite (load_series_from_csv_rows _ _ _ _ path
             (filter (λ r, skipped r = false) rows))
    by apply lookup_singleton_eq.
  rewrite (load_series_from_csv_rows _ _ _ _ path rows) by apply lookup_singleton_eq.
  by rewrite existsb_malformed_kept, surviving_points_kept.
Qed.

(** X23.  The sort is stable: in the series returned, the points of one
    date stand in the order of their rows in the file. *)
Theorem load_keeps_file_order (fs : filesystem) (path : string)
    (rows : list row) (points : list (SeriesPoint T)) (d : dt_date) :
  fs !! path = Some rows →
  load_series_from_csv fs path = Ok points →
  filter (λ p, date p = d) points
  = filter (λ p, date p = d) (surviving_points rows).
Proof.
  intros Hfile. rewrite (load_series_from_csv_rows _ _ _ fs path rows Hfile).
  destruct (existsb _ _); [done|]. unfold sorted_or_error.
  destruct (sort_by_key _ _ _) as [|p ps] eqn:Hsort; [done|].
  intros [= <-]. rewrite <- Hsort. apply sort_by_key_same_date.
Qed.
End ReaderMore.

Lemma load_and_upload_agree_witness :
  Lib.upload_rows (RawBytes [Lib.row_of "2021-02-01" "2"; Lib.row_of "2021-01-01" "1"])
  = Lib.load {["d.csv" := [Lib.row_of "2021-02-01" "2"; Lib.row_of "2021-01-01" "1"]]}
      "d.csv" ∧
  Lib.upload_rows (UploadedFile [Lib.row_of "2021-02-01" "2"; Lib.row_of "2021-01-01" "1"])
  = Lib.load {["d.csv" := [Lib.row_of "2021-02-01" "2"; Lib.row_of "2021-01-01" "1"]]}
      "d.csv".
Proof.
  apply (load_and_upload_agree Lib.strip Lib.fromisoformat Lib.parse_float
           {["d.csv" := [Lib.row_of "2021-02-01" "2"; Lib.row_of "2021-01-01" "1"]]}
           "d.csv" [Lib.row_of "2021-02-01" "2"; Lib.row_of "2021-01-01" "1"]).
  apply lookup_singleton_eq.
Defined.

Lemma load_order_irrelevant_witness :
  Lib.load {["d.csv" := [Lib.row_of "2021-02-01" "2"; Lib.row_of "2021-03-01" "3";
                         Lib.row_of "2021-01-01" "1"]]} "d.csv"
  = Lib.load {["d.csv" := [Lib.row_of "2021-01-01" "1"; Lib.row_of "2021-02-01" "2";
                           Lib.row_of "2021-03-01" "3"]]} "d.csv".
Proof.
  apply (load_order_irrelevant Lib.strip Lib.fromisoformat Lib.parse_float
           [Lib.row_of "2021-01-01" "1"; Lib.row_of "2021-02-01" "2";
            Lib.row_of "2021-03-01" "3"]
           [Lib.row_of "2021-02-01" "2"; Lib.row_of "2021-03-01" "3";
            Lib.row_of "2021-01-01" "1"] "d.csv").
  - apply Permutation_cons_append.
  - apply (bool_decide_unpack _). vm_compute. exact I.
Defined.

Lemma load_keeps_file_order_witness :
  filter (λ p : SeriesPoint Q, date p = mk_date 2021 1 1)
    [mk_point (mk_date 2021 1 1) 7; mk_point (mk_date 2021 1 1) 3;
     mk_point (mk_date 2021 2 1) 5]%Q
  = filter (λ p : SeriesPoint Q, date p = mk_date 2021 1 1)
      (surviving_points Lib.strip Lib.fromisoformat Lib.parse_float
         [Lib.row_of "2021-02-01" "5"; Lib.row_of "2021-01-01" "7";
          Lib.row_of "2021-01-01" "3"]).
Proof.
  apply (load_keeps_file_order Lib.strip Lib.fromisoformat Lib.parse_float
           {["d.csv" := [Lib.row_of "2021-02-01" "5"; Lib.row_of "2021-01-01" "7";
                         Lib.row_of "2021-01-01" "3"]]} "d.csv").
  - apply lookup_singleton_eq.
  - by vm_compute.
Defined.

(** ** Forecasts of rational series stay in range *)

Lemma rational_sum_bounds (xs : list Q) (lo hi : Q) :
  Forall (λ x, lo <= x ∧ x <= hi)%Q xs →
  (lo * inject_Z (Z.of_nat (length xs)) <= fold_right Qplus 0 xs)%Q ∧
  (fold_right Qplus 0 xs <= hi * inject_Z (Z.of_nat (length xs)))%Q.
Proof.
  induction 1 as [|x xs [Hlo Hhi] _ [IHlo IHhi]].
  - simpl. rewrite !Qmult_0_r. split; apply Qle_refl.
  - cbn [length fold_right].
    assert (Hn : (inject_Z (Z.of_nat (S (length xs)))
                  == 1 + inject_Z (Z.of_nat (length xs)))%Q).
    { rewrite Nat2Z.inj_succ, <- Z.add_1_l, inject_Z_plus. reflexivity. }
    rewrite Hn, !Qmult_plus_distr_r, !Qmult_1_r.
    split; by apply Qplus_le_compat.
Qed.

Lemma rational_mean_bounds (xs : list Q) (lo hi : Q) :
  xs ≠ [] → Forall (λ x, lo <= x ∧ x <= hi)%Q xs →
  (lo <= mean xs)%Q ∧ (mean xs <= hi)%Q.
Proof.
  intros Hne Hall. rewrite mean_rational.
  destruct (rational_sum_bounds xs lo hi Hall) as [Hlo Hhi].
  assert (Hpos : (0 < inject_Z (Z.of_nat (length xs)))%Q).
  { change 0%Q with (inject_Z 0). rewrite <- Zlt_Qlt.
    destruct xs; [done|]. simpl. lia. }
  split.
  - by apply Qle_shift_div_l.
  - by apply Qle_shift_div_r.
Qed.

Lemma tail_window_bounded (window : Z) (history : list Q) (lo hi : Q) :
  Forall (λ x, lo <= x ∧ x <= hi)%Q history →
  Forall (λ x, lo <= x ∧ x <= hi)%Q (tail_window window history).
Proof.
  intros Hall. unfold tail_window, slice.
  by apply Forall_take, Forall_drop.
Qed.

Lemma forecast_values_bounded (window : Z) (n : nat) (lo hi : Q) :
  ∀ history : list Q,
    tail_window window history ≠ [] →
    Forall (λ x, lo <= x ∧ x <= hi)%Q history →
    Forall (λ x, lo <= x ∧ x <= hi)%Q (forecast_values window n history).
Proof.
  induction n as [|n IH]; intros history Hne Hall; cbn [forecast_values].
  - constructor.
  - assert (Hm : (lo <= mean (tail_window window history)
                  ∧ mean (tail_window window history) <= hi)%Q).
    { apply rational_mean_bounds; [done|]. by apply tail_window_bounded. }
    constructor; [done|]. apply IH.
    + by apply tail_window_app_nonempty.
    + apply Forall_app. split; [done|]. by constructor.
Qed.

(** X24.  Forecasts of a rational series never leave the range of the
    input: if every observation lies between [lo] and [hi], so does every
    forecast, whatever the window and the horizon. *)
Theorem forecast_stays_in_range (values fs : list Q) (window horizon : Z) (lo hi : Q) :
  Forall (λ x, lo <= x ∧ x <= hi)%Q values →
  forecast values window horizon = Ok fs →
  Forall (λ x, lo <= x ∧ x <= hi)%Q fs.
Proof.
  intros Hall. rewrite forecast_closed_form.
  destruct (horizon <=? 0); [by intros [= <-]|].
  destruct (tail_window window values) as [|x l] eqn:Htw; [done|].
  intros [= <-]. apply forecast_values_bounded; [by rewrite Htw|done].
Qed.

(** X25.  A constant rational series is forecast flat: when every
    observation equals [c], every forecast equals [c]. *)
Theorem forecast_of_constant_series (values fs : list Q) (window horizon : Z) (c : Q) :
  Forall (λ x, x == c)%Q values →
  forecast values window horizon = Ok fs →
  Forall (λ x, x == c)%Q fs.
Proof.
  intros Hall. rewrite forecast_closed_form.
  destruct (horizon <=? 0); [by intros [= <-]|].
  destruct (tail_window window values) as [|x l] eqn:Htw; [done|].
  intros [= <-].
  assert (Hb : Forall (λ x, c <= x ∧ x <= c)%Q
                 (forecast_values window (Z.to_nat horizon) values)).
  { apply forecast_values_bounded; [by rewrite Htw|].
    eapply Forall_impl; [exact Hall|]. intros y Hy. simpl.
    rewrite Hy. split; apply Qle_refl. }
  eapply Forall_impl; [exact Hb|]. intros y [H1 H2]. simpl.
  by apply Qle_antisym.
Qed.

Lemma forecast_stays_in_range_witness :
  Forall (λ x, 10 <= x ∧ x <= 30)%Q [25; 55 # 2; 105 # 4]%Q.
Proof.
  apply (forecast_stays_in_range [10; 20; 30]%Q [25; 55 # 2; 105 # 4]%Q 2 3 10 30).
  - repeat constructor; by vm_compute.
  - by vm_compute.
Defined.

Lemma forecast_of_constant_series_witness :
  Forall (λ x, x == 7 # 2)%Q [7 # 2; 7 # 2]%Q.
Proof.
  apply (forecast_of_constant_series [14 # 4; 7 # 2; 21 # 6]%Q [7 # 2; 7 # 2]%Q 3 2 (7 # 2)).
  - repeat constructor; by vm_compute.
  - by vm_compute.
Defined.

(** ** The command-line run *)

Lemma moving_average_nonpositive {T : Type} `{Number T} (values : list T)
    (window : Z) :
  window <= 0 → moving_average values window = Raise ValueError.
Proof.
  intros Hw. unfold moving_average. by replace (window <=? 0) with true by lia.
Qed.




Section MainFacts.
Variable sin : float → float.
Variable round_ndigits : float → Z → float.
Variable strip : string → string.
Variable fromisoformat : string → option dt_date.
Variable parse_float : string → option float.
Variable isoformat : dt_date → string.
Variable format_float : string → float → string.
Variable str_int : Z → string.

Local Abbreviation main :=
  (Cli.main sin round_ndigits strip fromisoformat parse_float
     isoformat format_float str_int).

Lemma demo_series_default :
  ∃ (before : list (SeriesPoint float)) (v : float),
    Cli.generate_demo_series sin round_ndigits 36
    = Ok (before ++ [mk_point (mk_date 2023 12 1) v]) ∧
    length before = 35%nat.
Proof.
  unfold Cli.generate_demo_series.
  change (new_date 2021 1 1) with (Ok (mk_date 2021 1 1)). rewrite bind_ok.
  rewrite demo_series_prefix by (simpl; lia).
  change (Z.to_nat 36) with (35 + 1)%nat. rewrite seq_app, map_app.
  eexists _, _. split; [done|]. by rewrite length_map, length_seq.
Qed.

Lemma load_raises_value_error (fs : filesystem) (path : string) (rows : list row) :
  fs !! path = Some rows →
  load_series_from_csv strip fromisoformat parse_float fs path = Raise ValueError ∨
  ∃ series, load_series_from_csv strip fromisoformat parse_float fs path = Ok series.
Proof.
  intros Hfile. rewrite (load_series_from_csv_rows _ _ _ fs path rows Hfile).
  destruct (existsb _ _); [by left|]. unfold sorted_or_error.
  destruct (sort_by_key _ _ _); [by left|right; by eexists].
Qed.

(** X26.  Errors in the input are found before anything is printed: a data
    file that does not exist ends the run with the not-found exception and
    no output, and a window that is zero or negative, on the demo data or on
    a file that exists, ends it with the invalid-argument exception and no
    output. *)
Theorem main_input_errors (args : Cli.Namespace) (fs : filesystem) :
  (∀ path, Cli.data args = Some path → fs !! path = None →
     main args fs = ([], Some FileNotFoundError)) ∧
  (Cli.window args <= 0 →
   (∀ path, Cli.data args = Some path → fs !! path ≠ None) →
   main args fs = ([], Some ValueError)).
Proof.
  split.
  - intros path Hdata Hfile. unfold Cli.main, load_series_from_csv.
    by rewrite Hdata, Hfile.
  - intros Hw Hexists. unfold Cli.main.
    destruct (Cli.data args) as [path|] eqn:Hdata.
    + destruct (fs !! path) as [rows|] eqn:Hfile; [|by destruct (Hexists path)].
      destruct (load_raises_value_error fs path rows Hfile) as [->|[series ->]];
        [done|].
      rewrite bind_ok. by rewrite moving_average_nonpositive.
    + destruct demo_series_default as (before & v & -> & _).
      rewrite bind_ok. by rewrite moving_average_nonpositive.
Qed.

End MainFacts.


Lemma main_input_errors_witness :
  Cli.main (λ x, x) (λ x _, x) Lib.strip Lib.fromisoformat (λ _, None)
    (λ _, "date") (λ _ _, "value") (λ _, "n")
    {| Cli.window := 3; Cli.horizon := 6; Cli.data := Some "nowhere.csv";
       Cli.history := 10 |} ∅
  = ([], Some FileNotFoundError).
Proof.
  apply (proj1 (main_input_errors (λ x, x) (λ x _, x) Lib.strip Lib.fromisoformat
                  (λ _, None) (λ _, "date") (λ _ _, "value") (λ _, "n")
                  {| Cli.window := 3; Cli.horizon := 6;
                     Cli.data := Some "nowhere.csv"; Cli.history := 10 |} ∅)
           "nowhere.csv"); reflexivity.
Defined.

(** ** The smoother and the sparkline on exact rationals *)

Lemma smoothed_at_cases (values : list Q) (window : Z) (i : nat) (m : Q) :
  0 < window → smoothed_at values window i = Some m →
  ∃ elems : list Q,
    elems = elements_between values
              (Z.to_nat (Z.max 0 (Z.of_nat i - window + 1))) i ∧
    Z.of_nat (length elems) = window ∧ m = mean elems.
Proof.
  intros Hw. unfold smoothed_at. case_decide as Hlen; [|done].
  intros [= <-]. by eexists.
Qed.

(** X28.  Smoothing a rational series never overshoots: if every
    observation lies between [lo] and [hi], so does every moving average. *)
Theorem moving_average_stays_in_range (values : list Q) (window : Z)
    (out : list (option Q)) (lo hi : Q) :
  Forall (λ x, lo <= x ∧ x <= hi)%Q values →
  moving_average values window = Ok out →
  ∀ (i : nat) (m : Q), out !! i = Some (Some m) → (lo <= m ∧ m <= hi)%Q.
Proof.
  intros Hall Hout i m Hi.
  destruct (decide (0 < window)) as [Hw|Hw].
  2:{ by rewrite moving_average_nonpositive in Hout by lia. }
  rewrite moving_average_map in Hout by done. injection Hout as Hout.
  subst out. rewrite list_lookup_fmap in Hi.
  destruct (seq 0 (length values) !! i) as [k|] eqn:Hk; [|done].
  apply lookup_seq in Hk as [-> _]. simpl in Hi. injection Hi as Hi.
  destruct (smoothed_at_cases values window i m Hw Hi) as (elems & He & Hlen & ->).
  apply rational_mean_bounds.
  - intros ->. simpl in Hlen. lia.
  - rewrite He. unfold elements_between. by apply Forall_take, Forall_drop.
Qed.

(** X29.  With a window of one the smoother gives the series back: every
    position is defined and its average equals the observation. *)
Theorem moving_average_window_one (values : list Q) :
  ∃ out : list (option Q),
    moving_average values 1 = Ok out ∧
    length out = length values ∧
    ∀ (i : nat) (x : Q), values !! i = Some x →
      ∃ m : Q, out !! i = Some (Some m) ∧ (m == x)%Q.
Proof.
  rewrite moving_average_map by lia. eexists. split; [done|].
  split; [by rewrite length_map, length_seq|].
  intros i x Hx. pose proof (lookup_lt_Some _ _ _ Hx) as Hi.
  rewrite list_lookup_fmap, lookup_seq_lt by done. simpl.
  unfold smoothed_at.
  replace (Z.to_nat (0 `max` (Z.of_nat i - 1 + 1))) with i by lia.
  assert (He : elements_between values i i = [x]).
  { unfold elements_between. replace (S i - i)%nat with 1%nat by lia.
    rewrite (drop_S _ _ _ Hx). done. }
  rewrite He. case_decide; [|done].
  eexists. split; [done|].
  rewrite mean_rational. simpl. unfold Qdiv.
  rewrite Qplus_0_r. change (/ inject_Z 1)%Q with 1%Q. apply Qmult_1_r.
Qed.

Lemma round_half_even_close (n : Z) (d : positive) :
  2 * n - Z.pos d <= 2 * round_half_even n (Z.pos d) * Z.pos d <= 2 * n + Z.pos d.
Proof.
  unfold round_half_even.
  assert (Hd : 0 < Z.pos d) by lia.
  pose proof (Z.div_mod n (Z.pos d) ltac:(lia)) as Hdm.
  pose proof (Z.mod_pos_bound n (Z.pos d) Hd) as Hmod.
  set (q := n / Z.pos d) in *. set (r := n mod Z.pos d) in *.
  set (D := Z.pos d) in *. clearbody q r D.
  destruct (Z.compare_spec (2 * r) D) as [E|E|E].
  - destruct (Z.even q); lia.
  - lia.
  - lia.
Qed.

(** Rounding two fractions in lowest terms keeps their order. *)
Lemma round_half_even_monotone (a b : Q) :
  (Qred a <= Qred b)%Q →
  round_half_even (Qnum (Qred a)) (Z.pos (Qden (Qred a)))
  <= round_half_even (Qnum (Qred b)) (Z.pos (Qden (Qred b))).
Proof.
  intros Hle.
  destruct (Z_le_gt_dec
              (round_half_even (Qnum (Qred a)) (Z.pos (Qden (Qred a))))
              (round_half_even (Qnum (Qred b)) (Z.pos (Qden (Qred b)))))
    as [|Hgt]; [done|].
  exfalso.
  pose proof (round_half_even_close (Qnum (Qred a)) (Qden (Qred a))) as Ha.
  pose proof (round_half_even_close (Qnum (Qred b)) (Qden (Qred b))) as Hb.
  assert (Heq : (Qred a == Qred b)%Q).
  { apply Qle_antisym; [done|]. unfold Qle in *.
    set (n1 := Qnum (Qred a)) in *. set (n2 := Qnum (Qred b)) in *.
    assert (Hd1 : 0 < Z.pos (Qden (Qred a))) by lia.
    assert (Hd2 : 0 < Z.pos (Qden (Qred b))) by lia.
    set (d1 := Z.pos (Qden (Qred a))) in *.
    set (d2 := Z.pos (Qden (Qred b))) in *.
    set (ra := round_half_even n1 d1) in *.
    set (rb := round_half_even n2 d2) in *.
    clearbody ra rb n1 n2 d1 d2.
    assert (H0 : 0 <= (ra - rb - 1) * d1)
      by (apply Z.mul_nonneg_nonneg; lia).
    assert (H1 : (2 * rb + 1) * d1 <= 2 * n1) by lia.
    assert (H2 : 2 * n2 <= (2 * rb + 1) * d2) by lia.
    assert (H3 : (2 * rb + 1) * d1 * d2 <= 2 * n1 * d2)
      by (apply Z.mul_le_mono_nonneg_r; lia).
    assert (H4 : 2 * n2 * d1 <= (2 * rb + 1) * d2 * d1)
      by (apply Z.mul_le_mono_nonneg_r; lia).
    lia. }
  rewrite !Qred_correct in Heq. apply Qred_complete in Heq.
  rewrite Heq in Hgt. lia.
Qed.

Lemma ramp_position_monotone (lo hi x y : Q) :
  (lo < hi)%Q → (x <= y)%Q → ramp_position lo hi x <= ramp_position lo hi y.
Proof.
  intros Hlt Hxy. unfold ramp_position.
  apply round_half_even_monotone.
  assert (Hspan : (0 < hi - lo)%Q) by (by apply Qlt_minus_iff in Hlt).
  rewrite !Qred_correct.
  apply Qmult_le_compat_r; [|by vm_compute].
  unfold Qdiv. apply Qmult_le_compat_r.
  - unfold Qminus. by apply Qplus_le_l.
  - apply Qlt_le_weak, Qinv_lt_0_compat. exact Hspan.
Qed.

Lemma lookup_nth_lt {A : Type} (l : list A) (i : nat) (d : A) :
  (i < length l)%nat → l !! i = Some (nth i l d).
Proof.
  intros Hi. destruct (lookup_lt_is_Some_2 l i Hi) as [x Hx].
  rewrite Hx. f_equal. symmetry. by apply nth_lookup_Some.
Qed.

(** X30.  On exact rationals the sparkline keeps the order of the values: a
    value that is not smaller is never drawn with a character that stands
    earlier in the ramp. *)
Theorem sparkline_rational_monotone (values : list Q) (s : string)
    (i j : nat) (x y : Q) :
  sparkline values = Ok s →
  values !! i = Some x → values !! j = Some y → (x <= y)%Q →
  ∃ pi pj : nat,
    (ramp !! pi = String.get i s ∧ is_Some (String.get i s)) ∧
    (ramp !! pj = String.get j s ∧ is_Some (String.get j s)) ∧
    (pi <= pj)%nat.
Proof.
  intros Hs Hx Hy Hxy. destruct values as [|v vs]; [done|].
  destruct (sparkline_rational v vs) as (lo & hi & _ & _ & Hle & Hall & Heq).
  rewrite Hs in Heq. destruct (Qeq_bool lo hi) eqn:E.
  - assert (s = str_mul "=" (length (v :: vs))) as -> by congruence.
    exists 4%nat, 4%nat.
    rewrite !(str_mul_get "=") by (by eapply lookup_lt_Some).
    repeat split; by eauto.
  - set (chars := map _ (v :: vs)) in Heq.
    assert (s = string_of_list_ascii chars) as -> by congruence.
    assert (Hlt : (lo < hi)%Q).
    { apply Qnot_le_lt. intros Hge.
      assert (lo == hi)%Q by (by apply Qle_antisym).
      apply Qeq_bool_iff in H. congruence. }
    rewrite Forall_forall in Hall.
    destruct (Hall x) as [Hx1 Hx2]; [by eapply list_elem_of_lookup_2|].
    destruct (Hall y) as [Hy1 Hy2]; [by eapply list_elem_of_lookup_2|].
    pose proof (ramp_position_bounds lo hi x Hlt Hx1 Hx2) as Hbx.
    pose proof (ramp_position_bounds lo hi y Hlt Hy1 Hy2) as Hby.
    pose proof (ramp_position_monotone lo hi x y Hlt Hxy) as Hmono.
    exists (Z.to_nat (ramp_position lo hi x)), (Z.to_nat (ramp_position lo hi y)).
    rewrite !string_of_list_get. subst chars.
    rewrite !list_lookup_fmap, Hx, Hy. cbn [fmap option_fmap option_map].
    split; [|split; [|lia]].
    + split; [|by eexists]. apply lookup_nth_lt.
      change (length ramp) with 10%nat. lia.
    + split; [|by eexists]. apply lookup_nth_lt.
      change (length ramp) with 10%nat. lia.
Qed.

Lemma moving_average_stays_in_range_witness : (1 <= 4 ∧ 4 <= 5)%Q.
Proof.
  apply (moving_average_stays_in_range [1; 3; 5]%Q 2 [None; Some 2; Some 4]%Q 1 5
           ltac:(repeat constructor; by vm_compute) ltac:(by vm_compute) 2%nat 4%Q).
  reflexivity.
Defined.

Lemma sparkline_rational_monotone_witness :
  ∃ pi pj : nat,
    (ramp !! pi = String.get 2 "= : @" ∧ is_Some (String.get 2 "= : @")) ∧
    (ramp !! pj = String.get 0 "= : @" ∧ is_Some (String.get 0 "= : @")) ∧
    (pi <= pj)%nat.
Proof.
  apply (sparkline_rational_monotone [3; 1; 2; 1; 5]%Q "= : @" 2 0 2 3);
    by vm_compute.
Defined.
